(** * Image-to-GPS calibration (src/client/app/utils/calibration.ts)

    A shallow embedding of the calibration utilities of OED and the
    properties of their specification.

    JavaScript numbers are IEEE 754 binary64 values.  They are modelled by
    the Standard Library's [spec_float] at precision 53 and maximal exponent
    1024, whose operations round to nearest, ties to even, and carry signed
    zeros, infinities and a single NaN, exactly the observable behaviour of
    a JavaScript [number].

    A [TypeError] (reading a property of [undefined]) is modelled by [None]
    in the [option] monad. *)

From Stdlib Require Import ZArith List Bool Lia Arith.
From Stdlib Require Strings.String Strings.Ascii DecimalString.
From Stdlib Require Import Floats.SpecFloat.
Import ListNotations.
Import Ascii.AsciiSyntax String.StringSyntax.

(* ================================================================== *)
(** ** JavaScript numbers *)

Module JS.

Definition prec : Z := 53.
Definition emax : Z := 1024.

Definition number : Type := spec_float.

Definition NaN : number := S754_nan.
Definition pzero : number := S754_zero false.

(** An integer literal, or an integer (array length, loop counter) used
    as a number. *)
Definition ofZ (z : Z) : number := binary_normalize prec emax z 0 false.
Definition ofNat (n : nat) : number := ofZ (Z.of_nat n).

(** The number nearest to [(-1)^s * m * 10^e]: the value of a decimal
    literal.  The quotient of two integer mantissas is rounded once by
    [SFdiv], whatever their size. *)
Definition ofDecimal (s : bool) (m : Z) (e : Z) : number :=
  match m with
  | Zpos p =>
      if (0 <=? e)%Z
      then binary_normalize prec emax (if s then - (m * 10 ^ e) else m * 10 ^ e)%Z 0 false
      else SFdiv prec emax (S754_finite s p 0)
                           (S754_finite false (Z.to_pos (10 ^ (- e))) 0)
  | _ => S754_zero s
  end.

Definition add : number -> number -> number := SFadd prec emax.
Definition sub : number -> number -> number := SFsub prec emax.
Definition mul : number -> number -> number := SFmul prec emax.
Definition div : number -> number -> number := SFdiv prec emax.
Definition neg : number -> number := SFopp.

(** [a < b], [a <= b], [a > b], [a >= b], [a == b]: false as soon as an
    operand is NaN. *)
Definition lt (a b : number) : bool := SFltb a b.
Definition le (a b : number) : bool := SFleb a b.
Definition gt (a b : number) : bool := SFltb b a.
Definition ge (a b : number) : bool := SFleb b a.
Definition eqb (a b : number) : bool := SFeqb a b.

(** [Math.abs], [Math.sqrt]. *)
Definition Math_abs : number -> number := SFabs.
Definition Math_sqrt : number -> number := SFsqrt prec emax.

(** [Math.pow(a, 2)]: the engines' [pow] (fdlibm) returns [a * a] when the
    exponent is 2. *)
Definition Math_pow2 (a : number) : number := mul a a.

(** The integer nearest to [m * 2^e * 10^d], the larger one on a tie:
    the digits [toFixed(d)] prints for the magnitude [m * 2^e]. *)
Definition fixedDigits (d : nat) (m : positive) (e : Z) : Z :=
  let scaled := (Zpos m * 10 ^ Z.of_nat d)%Z in
  if (0 <=? e)%Z then (scaled * 2 ^ e)%Z
  else ((2 * scaled + 2 ^ (- e)) / 2 ^ (- e + 1))%Z.

(** [Number(v.toFixed(d))] and [Number.parseFloat(v.toFixed(d))], which
    agree on every string [toFixed] prints:
    - NaN prints "NaN", an infinity "Infinity" or "-Infinity";
    - a magnitude of at least 10^21 prints as [String(v)], which reads
      back as [v];
    - both zeros print without a sign: "0.000";
    - otherwise the sign and the digits of [fixedDigits] with a decimal
      point [d] places from the right, read back to the nearest number
      ("-0.000" reads back as the negative zero). *)
Definition toFixedNumber (d : nat) (v : number) : number :=
  match v with
  | S754_nan => S754_nan
  | S754_infinity s => S754_infinity s
  | S754_zero _ => S754_zero false
  | S754_finite s m e =>
      if le (ofZ (10 ^ 21)) (Math_abs v) then v
      else ofDecimal s (fixedDigits d m e) (- Z.of_nat d)
  end.

End JS.

(* ================================================================== *)
(** ** JavaScript strings: [indexOf], [split], [parseFloat] *)

Module JSString.

Import JS.
Import Ascii String.
Local Open Scope string_scope.

Definition comma : ascii := ",".

(** [s.indexOf(c)] for a one-character [c]: the first position of [c],
    or -1. *)
Fixpoint indexOf (c : ascii) (s : string) : Z :=
  match s with
  | EmptyString => (-1)%Z
  | String a r =>
      if Ascii.eqb a c then 0%Z
      else match indexOf c r with
           | Zneg _ => (-1)%Z
           | k => (k + 1)%Z
           end
  end.

(** [s.split(c)] for a one-character separator: the fields between the
    separators, of which there is always at least one. *)
Fixpoint split (c : ascii) (s : string) : list string :=
  match s with
  | EmptyString => [EmptyString]
  | String a r =>
      if Ascii.eqb a c then EmptyString :: split c r
      else match split c r with
           | f :: fs => String a f :: fs
           | [] => [String a EmptyString]
           end
  end.

(** White space and line terminators among the code units below 256:
    TAB, LF, VT, FF, CR, SP, NBSP. *)
Definition isWhiteSpace (c : ascii) : bool :=
  let n := nat_of_ascii c in
  ((9 <=? n)%nat && (n <=? 13)%nat) || (n =? 32)%nat || (n =? 160)%nat.

Fixpoint trimStart (s : string) : string :=
  match s with
  | String a r => if isWhiteSpace a then trimStart r else s
  | EmptyString => s
  end.

Definition isDigit (c : ascii) : bool :=
  let n := nat_of_ascii c in (48 <=? n)%nat && (n <=? 57)%nat.

(** The longest prefix of decimal digits, as digit values, and the rest. *)
Fixpoint takeDigits (s : string) : list Z * string :=
  match s with
  | String a r =>
      if isDigit a
      then let '(ds, rest) := takeDigits r in
           ((Z.of_nat (nat_of_ascii a) - 48)%Z :: ds, rest)
      else ([], s)
  | EmptyString => ([], s)
  end.

Definition digitsValue (ds : list Z) : Z :=
  fold_left (fun acc d => (10 * acc + d)%Z) ds 0%Z.

(** ExponentPart, optional: [e] or [E], an optional sign and at least one
    digit; anything else is not part of the literal and counts as 0. *)
Definition exponentPart (s : string) : Z :=
  match s with
  | String a r =>
      if Ascii.eqb a "e" || Ascii.eqb a "E" then
        let '(sg, r') :=
          match r with
          | String "+" t => (false, t)
          | String "-" t => (true, t)
          | _ => (false, r)
          end in
        match fst (takeDigits r') with
        | [] => 0%Z
        | ds => if sg then (- digitsValue ds)%Z else digitsValue ds
        end
      else 0%Z
  | EmptyString => 0%Z
  end.

Inductive literal : Type :=
| LitInfinity
| LitDecimal (m : Z) (e : Z).

(** The longest prefix that is a StrUnsignedDecimalLiteral:
    [Infinity], [digits . digits? exp?], [. digits exp?] or [digits exp?]. *)
Definition unsignedLiteral (s : string) : option literal :=
  if String.prefix "Infinity" s then Some LitInfinity
  else
    let '(ip, r1) := takeDigits s in
    match r1 with
    | String "." r2 =>
        let '(fp, r3) := takeDigits r2 in
        match ip, fp with
        | [], [] => None
        | _, _ =>
            Some (LitDecimal (digitsValue (ip ++ fp)%list)
                             (exponentPart r3 - Z.of_nat (List.length fp)))
        end
    | _ =>
        match ip with
        | [] => None
        | _ => Some (LitDecimal (digitsValue ip) (exponentPart r1))
        end
    end.

Definition literalValue (s : bool) (l : option literal) : number :=
  match l with
  | None => NaN
  | Some LitInfinity => S754_infinity s
  | Some (LitDecimal m e) => ofDecimal s m e
  end.

(** [parseFloat(s)]: leading white space is skipped, the longest prefix
    that is a decimal literal is read and rounded to the nearest number;
    NaN when there is no such prefix. *)
Definition parseFloat (s : string) : number :=
  match trimStart s with
  | String "-" r => literalValue true (unsignedLiteral r)
  | String "+" r => literalValue false (unsignedLiteral r)
  | t => literalValue false (unsignedLiteral t)
  end.

End JSString.

(* ================================================================== *)
(** ** The option monad: a [TypeError] aborts the call *)

Definition bind {A B : Type} (m : option A) (k : A -> option B) : option B :=
  match m with
  | Some a => k a
  | None => None
  end.

Notation "x <- m ;; k" := (bind m (fun x => k))
  (at level 61, m at next level, right associativity).

(** [for (let i = lo; i < lo + count; i++) body], threading the variables
    the body assigns. *)
Fixpoint forRange {S : Type} (lo count : nat)
    (body : nat -> S -> option S) (s : S) : option S :=
  match count with
  | O => Some s
  | Datatypes.S c => s' <- body lo s ;; forRange (Datatypes.S lo) c body s'
  end.

(* ================================================================== *)
(** ** The data model (calibration.ts, lines 5-47) *)

Import JS.

Record CartesianPoint : Type := { x : number; y : number }.

Record GPSPoint : Type := { longitude : number; latitude : number }.

Record MapScale : Type := { degreePerUnitX : number; degreePerUnitY : number }.

Record CalibratedPoint : Type := { cartesian : CartesianPoint; gps : GPSPoint }.

(** The anonymous [{x, y}] object of [CalibrationResult.maxError]. *)
Module MaxError.
Record t : Type := { x : number; y : number }.
End MaxError.

Record CalibrationResult : Type :=
  { maxError : MaxError.t; origin : GPSPoint; opposite : GPSPoint }.

Record Dimensions : Type := { width : number; height : number }.

(* ================================================================== *)
(** ** The functions *)

(** [isValidGPSInput] (lines 49-56).  An index past the end of [array]
    reads [undefined], which a comparison converts to NaN. *)
Definition isValidGPSInput (input : String.string) : bool :=
  if (JSString.indexOf JSString.comma input =? -1)%Z then false
  else
    let array := map JSString.parseFloat (JSString.split JSString.comma input) in
    let latitudeIndex := 0%nat in
    let longitudeIndex := 1%nat in
    ge (nth latitudeIndex array NaN) (ofZ (-90))
    && le (nth latitudeIndex array NaN) (ofZ 90)
    && ge (nth longitudeIndex array NaN) (ofZ (-180))
    && le (nth longitudeIndex array NaN) (ofZ 180).

(** [calculateScale] (lines 149-159). *)
Definition calculateScale (p1 p2 : CalibratedPoint) : MapScale :=
  let deltaLatitude := sub (latitude (gps p1)) (latitude (gps p2)) in
  let deltaYInUnits := sub (y (cartesian p1)) (y (cartesian p2)) in
  let degreePerUnitY := div deltaLatitude deltaYInUnits in
  let deltaLongitude := sub (longitude (gps p1)) (longitude (gps p2)) in
  let deltaXInUnits := sub (x (cartesian p1)) (x (cartesian p2)) in
  let degreePerUnitX := div deltaLongitude deltaXInUnits in
  {| degreePerUnitX := degreePerUnitX; degreePerUnitY := degreePerUnitY |}.

(** [normalizeImageDimensions] (lines 166-184). *)
Definition normalizeImageDimensions (dimensions : Dimensions) : Dimensions :=
  if gt (width dimensions) (height dimensions) then
    let width' := ofZ 500 in
    let height' := div (mul (ofZ 500) (height dimensions)) (width dimensions) in
    {| width := width'; height := height' |}
  else
    let height' := ofZ 500 in
    let width' := div (mul (ofZ 500) (width dimensions)) (height dimensions) in
    {| width := width'; height := height' |}.

(** [calculateScaleFromEndpoints] (lines 58-64). *)
Definition calculateScaleFromEndpoints
    (origin opposite : GPSPoint) (imageDimensions : Dimensions) : MapScale :=
  let normalizedDimensions := normalizeImageDimensions imageDimensions in
  let originComplete :=
    {| gps := origin; cartesian := {| x := pzero; y := pzero |} |} in
  let oppositeComplete :=
    {| gps := opposite;
       cartesian := {| x := width normalizedDimensions;
                       y := height normalizedDimensions |} |} in
  calculateScale originComplete oppositeComplete.

(** *** [calibrate] (lines 66-147)

    The body is cut where the source's comments cut it. *)

(** Lines 69-75: the scale of every pair, pushed in loop order. *)
Definition pairScales (calibrationSet : list CalibratedPoint)
  : option (list MapScale) :=
  forRange 0 (length calibrationSet - 1) (fun i scales =>
    forRange (i + 1) (length calibrationSet - (i + 1)) (fun j scales =>
      p1 <- nth_error calibrationSet i ;;
      p2 <- nth_error calibrationSet j ;;
      Some (scales ++ [calculateScale p1 p2])) scales) [].

(** Lines 77-83: the two running sums, [(XScaleSum, YScaleSum)]. *)
Definition scaleSums (scales : list MapScale) : option (number * number) :=
  let numDataPoints := length scales in
  forRange 0 numDataPoints (fun i sums =>
    s <- nth_error scales i ;;
    Some (add (fst sums) (degreePerUnitX s),
          add (snd sums) (degreePerUnitY s))) (pzero, pzero).

(** The variables in scope after line 98. *)
Record Corners : Type :=
  { normalizedDimensions : Dimensions;
    scales : list MapScale;
    averageScale : MapScale;
    originCoordinate : GPSPoint;
    oppositeCoordinate : GPSPoint }.

(** Lines 67-98: normalized dimensions, pair scales, their average, and
    the two corners.  [calibrationSet[0]] of an empty set is [undefined]. *)
Definition calibrateCorners
    (calibrationSet : list CalibratedPoint) (imageDimensions : Dimensions)
  : option Corners :=
  let normalizedDimensions := normalizeImageDimensions imageDimensions in
  scales <- pairScales calibrationSet ;;
  sums <- scaleSums scales ;;
  let numDataPoints := length scales in
  let degreePerUnitX := div (fst sums) (ofNat numDataPoints) in
  let degreePerUnitY := div (snd sums) (ofNat numDataPoints) in
  p0 <- nth_error calibrationSet 0 ;;
  let originCoordinate :=
    {| latitude := sub (latitude (gps p0)) (mul degreePerUnitY (y (cartesian p0)));
       longitude := sub (longitude (gps p0)) (mul degreePerUnitX (x (cartesian p0))) |} in
  let oppositeCoordinate :=
    {| latitude := add (latitude originCoordinate)
                       (mul (height normalizedDimensions) degreePerUnitY);
       longitude := add (longitude originCoordinate)
                        (mul (width normalizedDimensions) degreePerUnitX) |} in
  Some {| normalizedDimensions := normalizedDimensions;
          scales := scales;
          averageScale := {| degreePerUnitX := degreePerUnitX;
                             degreePerUnitY := degreePerUnitY |};
          originCoordinate := originCoordinate;
          oppositeCoordinate := oppositeCoordinate |}.

(** Lines 100-106: the top-left corner, rounded to 6 decimals.  The value
    is not used afterwards. *)
Definition topLeftCoordinate (c : Corners) : GPSPoint :=
  let topLeftLatitude :=
    add (latitude (originCoordinate c))
        (mul (height (normalizedDimensions c)) (degreePerUnitY (averageScale c))) in
  let topLeftLongitude := longitude (originCoordinate c) in
  {| latitude := toFixedNumber 6 topLeftLatitude;
     longitude := toFixedNumber 6 topLeftLongitude |}.

(** Lines 108-113: the down-right corner, rounded to 6 decimals.  The value
    is not used afterwards. *)
Definition downRightCoordinate (c : Corners) : GPSPoint :=
  let downRightLatitude := latitude (originCoordinate c) in
  let downRightLongitude :=
    add (longitude (originCoordinate c))
        (mul (width (normalizedDimensions c)) (degreePerUnitX (averageScale c))) in
  {| latitude := toFixedNumber 6 downRightLatitude;
     longitude := toFixedNumber 6 downRightLongitude |}.

(** Line 116. *)
Definition diagonal (c : Corners) : number :=
  Math_sqrt
    (add (Math_pow2 (mul (width (normalizedDimensions c)) (degreePerUnitX (averageScale c))))
         (Math_pow2 (mul (height (normalizedDimensions c)) (degreePerUnitY (averageScale c))))).

(** The two objects the error loop assigns: [scalesWithMaxDifference] and
    [pointIndexWithMaxDifference]. *)
Record MaxDifference : Type :=
  { scalesWithMaxDifference : MapScale;
    pointIndexWithMaxDifference : Z * Z }.

(** Lines 126-135: one turn of the error loop.  [scales[i]] past the end is
    [undefined], and reading its [degreePerUnitX] throws. *)
Definition maxDifferenceStep (scales : list MapScale) (average : MapScale)
    (i : nat) (acc : MaxDifference) : option MaxDifference :=
  s <- nth_error scales i ;;
  let XScaleDifference := Math_abs (sub (degreePerUnitX s) (degreePerUnitX average)) in
  let YScaleDifference := Math_abs (sub (degreePerUnitY s) (degreePerUnitY average)) in
  let updX := gt XScaleDifference (degreePerUnitX (scalesWithMaxDifference acc)) in
  let updY := gt YScaleDifference (degreePerUnitY (scalesWithMaxDifference acc)) in
  Some {| scalesWithMaxDifference :=
            {| degreePerUnitX := if updX then XScaleDifference
                                 else degreePerUnitX (scalesWithMaxDifference acc);
               degreePerUnitY := if updY then YScaleDifference
                                 else degreePerUnitY (scalesWithMaxDifference acc) |};
          pointIndexWithMaxDifference :=
            (if updX then Z.of_nat i else fst (pointIndexWithMaxDifference acc),
             if updY then Z.of_nat i else snd (pointIndexWithMaxDifference acc)) |}.

(** Lines 117-136: the error loop, over the indices of [calibrationSet]. *)
Definition maxDifference (calibrationSet : list CalibratedPoint) (c : Corners)
  : option MaxDifference :=
  forRange 0 (length calibrationSet)
    (maxDifferenceStep (scales c) (averageScale c))
    {| scalesWithMaxDifference := {| degreePerUnitX := pzero; degreePerUnitY := pzero |};
       pointIndexWithMaxDifference := ((-1)%Z, (-1)%Z) |}.

(** Lines 137-140. *)
Definition maxErrorPercentage (c : Corners) (m : MaxDifference) : MaxError.t :=
  {| MaxError.x :=
       toFixedNumber 3
         (mul (div (degreePerUnitX (scalesWithMaxDifference m)) (diagonal c)) (ofZ 100));
     MaxError.y :=
       toFixedNumber 3
         (mul (div (degreePerUnitY (scalesWithMaxDifference m)) (diagonal c)) (ofZ 100)) |}.

Definition calibrate
    (calibrationSet : list CalibratedPoint) (imageDimensions : Dimensions)
  : option CalibrationResult :=
  c <- calibrateCorners calibrationSet imageDimensions ;;
  let topLeftCoordinate := topLeftCoordinate c in
  let downRightCoordinate := downRightCoordinate c in
  m <- maxDifference calibrationSet c ;;
  Some {| maxError := maxErrorPercentage c m;
          origin := originCoordinate c;
          opposite := oppositeCoordinate c |}.

(* ================================================================== *)
(** ** The vocabulary of the specification *)

(** The unordered pairs of a sequence in the enumeration
    [i = 0..n-2], [j = i+1..n-1]. *)
Fixpoint allPairs {A : Type} (l : list A) : list (A * A) :=
  match l with
  | [] => []
  | a :: r => map (pair a) r ++ allPairs r
  end.

(** One [MapScale] per pair, in that enumeration. *)
Definition pairScaleSeq (set : list CalibratedPoint) : list MapScale :=
  map (fun pq => calculateScale (fst pq) (snd pq)) (allPairs set).

(** The position of the pair [(i, j)], [i < j < n], in the enumeration. *)
Fixpoint pairIndex (n i j : nat) : nat :=
  match i with
  | O => j - 1
  | S i' => (n - 1) + pairIndex (n - 1) i' (j - 1)
  end.

(** The number of pairs, C(n,2). *)
Definition choose2 (n : nat) : nat := n * (n - 1) / 2.

(** The arithmetic mean of a sequence of numbers: the sum, accumulated
    from 0 in sequence order, over the count. *)
Definition mean (xs : list number) : number :=
  div (fold_left add xs pzero) (ofNat (length xs)).

(** [m] is the maximum the error loop tracks over the deviations [ds]:
    it is a number (a NaN deviation is never stored), it is 0 (the
    initial value) or one of them, and none of them is greater. *)
Definition IsMaxOf (m : number) (ds : list number) : Prop :=
  m <> NaN /\ (m = pzero \/ In m ds) /\ forall d, In d ds -> gt d m = false.

(** The loop's maximum, as a fold. *)
Definition runningMax (ds : list number) (m0 : number) : number :=
  fold_left (fun m d => if gt d m then d else m) ds m0.

(** The deviations the error loop inspects: those of the first [n]
    entries of [scales]. *)
Definition deviations (proj : MapScale -> number) (c : Corners) (n : nat)
  : list number :=
  map (fun s => Math_abs (sub (proj s) (proj (averageScale c))))
      (firstn n (scales c)).

(** Scales that are pairwise equal ([==]) on both axes: a perfectly
    consistent set. *)
Definition consistentScales (l : list MapScale) : bool :=
  forallb (fun s =>
    forallb (fun s' => eqb (degreePerUnitX s) (degreePerUnitX s')
                       && eqb (degreePerUnitY s) (degreePerUnitY s')) l) l.

(** A number that is the result of rounding itself to [d] decimals. *)
Definition RoundedTo (d : nat) (v : number) : Prop := toFixedNumber d v = v.

Definition isNaN (v : number) : bool :=
  match v with S754_nan => true | _ => false end.

Definition isInfinite (v : number) : bool :=
  match v with S754_infinity _ => true | _ => false end.

(** The sign bit is [s], or the number is NaN. *)
Definition signIs (s : bool) (v : number) : bool :=
  match v with
  | S754_nan => true
  | S754_zero s' | S754_infinity s' | S754_finite s' _ _ => Bool.eqb s' s
  end.

(** The sign bit is clear, or the number is NaN. *)
Definition signClear (v : number) : bool := signIs false v.

(** Neither negative nor NaN: the sign bit is clear. *)
Definition nonNegative (v : number) : bool := signClear v && negb (isNaN v).

(** What the specification says of the error estimate of a result [r]:
    the deviations are those of the entries [0..n-1] of the pair-scale
    sequence, the maximum of each axis is the one the loop tracks from 0
    (replaced by a deviation exactly when that deviation is greater), and
    the result reports its percentage of the diagonal, rounded to 3
    decimals. *)
Definition MaxErrorSpec (set : list CalibratedPoint) (dims : Dimensions)
    (r : CalibrationResult) : Prop :=
  exists c,
    calibrateCorners set dims = Some c
    /\ scales c = pairScaleSeq set
    /\ length (scales c) = choose2 (length set)
    /\ length (deviations degreePerUnitX c (length set)) = length set
    /\ length (deviations degreePerUnitY c (length set)) = length set
    /\ (forall i s, i < length set -> nth_error (scales c) i = Some s ->
          nth_error (deviations degreePerUnitX c (length set)) i =
            Some (Math_abs (sub (degreePerUnitX s) (degreePerUnitX (averageScale c))))
          /\ nth_error (deviations degreePerUnitY c (length set)) i =
            Some (Math_abs (sub (degreePerUnitY s) (degreePerUnitY (averageScale c)))))
    /\ IsMaxOf (runningMax (deviations degreePerUnitX c (length set)) pzero)
               (deviations degreePerUnitX c (length set))
    /\ IsMaxOf (runningMax (deviations degreePerUnitY c (length set)) pzero)
               (deviations degreePerUnitY c (length set))
    /\ diagonal c =
         Math_sqrt
           (add (Math_pow2 (mul (width (normalizeImageDimensions dims))
                                (degreePerUnitX (averageScale c))))
                (Math_pow2 (mul (height (normalizeImageDimensions dims))
                                (degreePerUnitY (averageScale c)))))
    /\ MaxError.x (maxError r) =
         toFixedNumber 3
           (mul (div (runningMax (deviations degreePerUnitX c (length set)) pzero)
                     (diagonal c))
                (ofZ 100))
    /\ MaxError.y (maxError r) =
         toFixedNumber 3
           (mul (div (runningMax (deviations degreePerUnitY c (length set)) pzero)
                     (diagonal c))
                (ofZ 100)).

(** What the specification says of the variables of lines 67-98. *)
Definition CornersSpec (set : list CalibratedPoint) (dims : Dimensions)
    (c : Corners) : Prop :=
  normalizedDimensions c = normalizeImageDimensions dims
  /\ scales c = pairScaleSeq set
  /\ length (scales c) = choose2 (length set)
  /\ (forall i j p q, i < j -> nth_error set i = Some p -> nth_error set j = Some q ->
        nth_error (scales c) (pairIndex (length set) i j) = Some (calculateScale p q))
  /\ degreePerUnitX (averageScale c) = mean (map degreePerUnitX (scales c))
  /\ degreePerUnitY (averageScale c) = mean (map degreePerUnitY (scales c))
  /\ (forall p0, nth_error set 0 = Some p0 ->
        latitude (originCoordinate c) =
          sub (latitude (gps p0))
              (mul (degreePerUnitY (averageScale c)) (y (cartesian p0)))
        /\ longitude (originCoordinate c) =
          sub (longitude (gps p0))
              (mul (degreePerUnitX (averageScale c)) (x (cartesian p0))))
  /\ latitude (oppositeCoordinate c) =
       add (latitude (originCoordinate c))
           (mul (height (normalizeImageDimensions dims)) (degreePerUnitY (averageScale c)))
  /\ longitude (oppositeCoordinate c) =
       add (longitude (originCoordinate c))
           (mul (width (normalizeImageDimensions dims)) (degreePerUnitX (averageScale c))).

(** The text before the first [c] of a string, and the text after it. *)
Fixpoint beforeSep (c : Ascii.ascii) (s : String.string) : String.string :=
  match s with
  | String.EmptyString => String.EmptyString
  | String.String a r =>
      if Ascii.eqb a c then String.EmptyString else String.String a (beforeSep c r)
  end.

Fixpoint afterSep (c : Ascii.ascii) (s : String.string) : String.string :=
  match s with
  | String.EmptyString => String.EmptyString
  | String.String a r => if Ascii.eqb a c then r else afterSep c r
  end.

Fixpoint contains (c : Ascii.ascii) (s : String.string) : bool :=
  match s with
  | String.EmptyString => false
  | String.String a r => Ascii.eqb a c || contains c r
  end.

(** The first and the second comma-separated field of an input. *)
Definition firstField (input : String.string) : String.string :=
  beforeSep JSString.comma input.

Definition secondField (input : String.string) : String.string :=
  beforeSep JSString.comma (afterSep JSString.comma input).

(** A number within [lo, hi], by the comparisons of the language. *)
Definition inRange (lo hi : Z) (v : number) : bool :=
  ge v (ofZ lo) && le v (ofZ hi).

(** The order of two finite magnitudes [m1 * 2^e1] and [m2 * 2^e2] as
    [SFcompare] decides it: exponent first, mantissa next. *)
Definition magCompare (e1 : Z) (m1 : positive) (e2 : Z) (m2 : positive) : comparison :=
  match Z.compare e1 e2 with
  | Lt => Lt
  | Gt => Gt
  | Eq => Pos.compare_cont Eq m1 m2
  end.

(* ================================================================== *)
(** ** Inputs of the examples *)

Local Open Scope string_scope.

Definition lit (s : String.string) : number := JSString.parseFloat s.

Definition point (px py lat lon : String.string) : CalibratedPoint :=
  {| cartesian := {| x := lit px; y := lit py |};
     gps := {| latitude := lit lat; longitude := lit lon |} |}.

Definition square500 : Dimensions := {| width := lit "500"; height := lit "500" |}.

(** The scenario of the specification: two points, at the corners. *)
Definition twoCorners : list CalibratedPoint :=
  [ point "0" "0" "40.0" "-74.0"; point "500" "500" "40.01" "-73.99" ].

(** Three points on a line with exactly representable scales. *)
Definition threeExact : list CalibratedPoint :=
  [ point "0" "0" "0" "0"; point "128" "128" "1" "1"; point "256" "256" "2" "2" ].

(** Three points whose anchor has a latitude of seven decimals. *)
Definition threeSevenDecimals : list CalibratedPoint :=
  [ point "0" "0" "40.1234567" "-74.0";
    point "250" "250" "40.13" "-73.995";
    point "500" "500" "40.14" "-73.99" ].

(** Three points that are not on a line in GPS coordinates: the pair
    scales differ on both axes. *)
Definition threeNoisy : list CalibratedPoint :=
  [ point "0" "0" "40.0" "-74.0";
    point "250" "250" "40.13" "-73.99";
    point "500" "500" "40.14" "-73.97" ].

(** Three points on a line at one latitude: every pair has the longitude
    scale 0.1 and the latitude scale 0. *)
Definition threeOnALine : list CalibratedPoint :=
  [ point "0" "0" "0" "0"; point "1" "1" "0" "0.1"; point "2" "2" "0" "0.2" ].

(** A strip of 1 by 1e15 pixels. *)
Definition strip : Dimensions := {| width := lit "1"; height := lit "1e15" |}.

(** Three distinct pixels that all carry the same GPS position. *)
Definition threeSamePosition : list CalibratedPoint :=
  [ point "0" "0" "40" "-74"; point "250" "250" "40" "-74"; point "500" "500" "40" "-74" ].

(** Structural equality of numbers: the same bits (unlike [==], which
    equates the two zeros and separates NaN from itself). *)
Definition sameNumber (a b : number) : bool :=
  match a, b with
  | S754_zero s, S754_zero s' => Bool.eqb s s'
  | S754_infinity s, S754_infinity s' => Bool.eqb s s'
  | S754_nan, S754_nan => true
  | S754_finite s m e, S754_finite s' m' e' => Bool.eqb s s' && Pos.eqb m m' && Z.eqb e e'
  | _, _ => false
  end.

(** A square image of [n] by [n] pixels normalizes to 500 by 500. *)
Definition squareGives500 (n : nat) : bool :=
  let d := normalizeImageDimensions {| width := ofNat n; height := ofNat n |} in
  sameNumber (width d) (ofZ 500) && sameNumber (height d) (ofZ 500).

(** A number that is neither NaN nor an infinity. *)
Definition isFiniteNumber (v : number) : bool :=
  match v with
  | S754_zero _ | S754_finite _ _ _ => true
  | _ => false
  end.

(** A string of white space only. *)
Fixpoint allWhiteSpace (s : String.string) : bool :=
  match s with
  | String.EmptyString => true
  | String.String a r => JSString.isWhiteSpace a && allWhiteSpace r
  end.

(** The two fields [a] and [b] written as one input, [a,b]. *)
Definition gpsText (a b : String.string) : String.string :=
  String.append a (String.String JSString.comma b).

(** An integer in decimal, as [String(z)] prints it. *)
Definition decimalText (z : Z) : String.string :=
  DecimalString.NilZero.string_of_int (Z.to_int z).

(** The integers from [lo], [count] of them. *)
Definition integersFrom (lo : Z) (count : nat) : list Z :=
  map (fun k => (lo + Z.of_nat k)%Z) (seq 0 count).

(** On the decimal text of [z], the range check of a field agrees with the
    comparison of integers, and the text has no comma. *)
Definition decimalFieldAgrees (lo hi z : Z) : bool :=
  Bool.eqb (inRange lo hi (JSString.parseFloat (decimalText z)))
           ((lo <=? z)%Z && (z <=? hi)%Z)
  && negb (contains JSString.comma (decimalText z)).

(** A zero of either sign. *)
Definition isZero (v : number) : bool :=
  match v with S754_zero _ => true | _ => false end.

(** The same number, or two zeros: what [==] cannot tell apart, with NaN
    equal to itself. *)
Definition sameUpToZeroSign (u v : number) : Prop :=
  u = v \/ (isZero u = true /\ isZero v = true).

(** Three points, the first entered twice. *)
Definition threeWithDuplicate : list CalibratedPoint :=
  [ point "0" "0" "40.0" "-74.0"; point "0" "0" "40.0" "-74.0";
    point "500" "500" "40.01" "-73.99" ].

(** The two calibration points [calculateScaleFromEndpoints] builds: the
    origin at pixel (0, 0) and the opposite corner at the normalized
    width and height. *)
Definition endpointSet (origin opposite : GPSPoint) (imageDimensions : Dimensions)
  : list CalibratedPoint :=
  [ {| cartesian := {| x := pzero; y := pzero |}; gps := origin |};
    {| cartesian := {| x := width (normalizeImageDimensions imageDimensions);
                       y := height (normalizeImageDimensions imageDimensions) |};
       gps := opposite |} ].

(** An image of [w] by [h] pixels normalizes into the 500 by 500 box:
    neither side exceeds 500, both are above 0, and one is exactly 500. *)
Definition fitsBox (w h : nat) : bool :=
  let d := normalizeImageDimensions {| width := ofNat w; height := ofNat h |} in
  le (width d) (ofZ 500) && le (height d) (ofZ 500)
  && gt (width d) pzero && gt (height d) pzero
  && (sameNumber (width d) (ofZ 500) || sameNumber (height d) (ofZ 500)).

(** All the sizes from 1 by 1 to [n] by [n]. *)
Definition sizesUpTo (n : nat) : list (nat * nat) :=
  list_prod (seq 1 n) (seq 1 n).

(* ================================================================== *)
(** * Properties *)

(** ** Comparisons of numbers *)

Section FloatOrder.

Lemma SFcompare_refl (a : number) :
  SFcompare a a = Some Eq \/ SFcompare a a = None.
Proof.
  destruct a as [s | s | | s m e]; simpl; auto; destruct s; auto.
  - rewrite Z.compare_refl, Pos.compare_cont_refl. auto.
  - rewrite Z.compare_refl, Pos.compare_cont_refl. auto.
Qed.

Lemma lt_irrefl (a : number) : lt a a = false.
Proof.
  unfold lt, SFltb. destruct (SFcompare_refl a) as [H | H]; rewrite H; reflexivity.
Qed.

Lemma magCompare_Lt_trans e1 m1 e2 m2 e3 m3 :
  magCompare e1 m1 e2 m2 = Lt -> magCompare e2 m2 e3 m3 = Lt ->
  magCompare e1 m1 e3 m3 = Lt.
Proof.
  unfold magCompare.
  destruct (Z.compare_spec e1 e2), (Z.compare_spec e2 e3), (Z.compare_spec e1 e3);
    try discriminate; try lia; auto.
  fold (Pos.compare m1 m2) (Pos.compare m2 m3) (Pos.compare m1 m3).
  rewrite !Pos.compare_lt_iff. lia.
Qed.

Lemma magCompare_Gt_trans e1 m1 e2 m2 e3 m3 :
  magCompare e1 m1 e2 m2 = Gt -> magCompare e2 m2 e3 m3 = Gt ->
  magCompare e1 m1 e3 m3 = Gt.
Proof.
  unfold magCompare.
  destruct (Z.compare_spec e1 e2), (Z.compare_spec e2 e3), (Z.compare_spec e1 e3);
    try discriminate; try lia; auto.
  fold (Pos.compare m1 m2) (Pos.compare m2 m3) (Pos.compare m1 m3).
  rewrite !Pos.compare_gt_iff. lia.
Qed.

Lemma magCompare_opp e1 m1 e2 m2 :
  match Z.compare e1 e2 with
  | Eq => CompOpp (Pos.compare_cont Eq m1 m2)
  | Lt => Gt
  | Gt => Lt
  end = CompOpp (magCompare e1 m1 e2 m2).
Proof. unfold magCompare. now destruct (Z.compare e1 e2). Qed.

Lemma lt_trans (a b c : number) :
  lt a b = true -> lt b c = true -> lt a c = true.
Proof.
  unfold lt, SFltb.
  destruct a as [sa | sa | | sa ma ea], b as [sb | sb | | sb mb eb],
           c as [sc | sc | | sc mc ec]; simpl;
    try discriminate; try destruct sa; try destruct sb; try destruct sc;
    simpl; try discriminate; auto.
  - rewrite !magCompare_opp.
    intros H1 H2.
    destruct (magCompare ea ma eb mb) eqn:E1; try discriminate.
    destruct (magCompare eb mb ec mc) eqn:E2; try discriminate.
    now rewrite (magCompare_Gt_trans _ _ _ _ _ _ E1 E2).
  - fold (magCompare ea ma eb mb) (magCompare eb mb ec mc) (magCompare ea ma ec mc).
    intros H1 H2.
    destruct (magCompare ea ma eb mb) eqn:E1; try discriminate.
    destruct (magCompare eb mb ec mc) eqn:E2; try discriminate.
    now rewrite (magCompare_Lt_trans _ _ _ _ _ _ E1 E2).
Qed.

End FloatOrder.

(** ** Signs of results *)

Section Signs.

(** Rounding keeps the sign it is given. *)
Lemma binary_round_aux_sign (s : bool) (m e : Z) (l : location) :
  signIs s (binary_round_aux prec emax s m e l) = true.
Proof.
  unfold binary_round_aux.
  destruct (shr_fexp prec emax m e l) as [mrs' e'].
  destruct (shr_fexp prec emax _ e' loc_Exact) as [mrs'' e''].
  destruct (shr_m mrs'') as [ | p | p]; simpl; auto using eqb_reflx.
  destruct (_ <=? _)%Z; simpl; auto using eqb_reflx.
Qed.

Lemma binary_round_sign (s : bool) (m : positive) (e : Z) :
  signIs s (binary_round prec emax s m e) = true.
Proof.
  unfold binary_round.
  destruct (shl_align m e _) as [mz ez]. apply binary_round_aux_sign.
Qed.

Lemma mul_sign (a b : number) (sa sb : bool) :
  signIs sa a = true -> signIs sb b = true -> signIs (xorb sa sb) (mul a b) = true.
Proof.
  destruct a as [s1 | s1 | | s1 m1 e1], b as [s2 | s2 | | s2 m2 e2]; simpl; auto;
    intros Ha Hb; try apply eqb_prop in Ha; try apply eqb_prop in Hb; subst;
    auto using eqb_reflx.
  apply binary_round_aux_sign.
Qed.

Lemma div_sign (a b : number) (sa sb : bool) :
  signIs sa a = true -> signIs sb b = true -> signIs (xorb sa sb) (div a b) = true.
Proof.
  destruct a as [s1 | s1 | | s1 m1 e1], b as [s2 | s2 | | s2 m2 e2]; simpl; auto;
    intros Ha Hb; try apply eqb_prop in Ha; try apply eqb_prop in Hb; subst;
    auto using eqb_reflx.
  destruct (SFdiv_core_binary prec emax (Z.pos m1) e1 (Z.pos m2) e2) as [[mz ez] lz].
  apply binary_round_aux_sign.
Qed.

Lemma pow2_signClear (a : number) : signClear (Math_pow2 a) = true.
Proof.
  unfold Math_pow2, signClear.
  destruct a as [s | s | | s m e]; simpl; auto; try (now destruct s).
  destruct s; apply binary_round_aux_sign.
Qed.

Lemma add_signClear (a b : number) :
  signClear a = true -> signClear b = true -> signClear (add a b) = true.
Proof.
  unfold signClear.
  destruct a as [s1 | s1 | | s1 m1 e1], b as [s2 | s2 | | s2 m2 e2]; simpl; auto;
    destruct s1, s2; simpl; auto; try discriminate.
  intros _ _. apply binary_round_sign.
Qed.

Lemma sqrt_signClear (a : number) :
  signClear a = true -> signClear (Math_sqrt a) = true.
Proof.
  unfold signClear.
  destruct a as [s | s | | s m e]; simpl; auto; destruct s; simpl; auto.
  intros _.
  destruct (SFsqrt_core_binary prec emax (Z.pos m) e) as [[mz ez] lz].
  apply binary_round_aux_sign.
Qed.

Lemma abs_signClear (a : number) : signClear (Math_abs a) = true.
Proof. now destruct a. Qed.

Lemma ofDecimal_sign (s : bool) (m e : Z) : signIs s (ofDecimal s m e) = true.
Proof.
  unfold ofDecimal.
  destruct m as [ | p | p]; try (simpl; apply eqb_reflx).
  destruct (Z.leb_spec 0 e) as [He | He].
  - assert (H : (0 < Z.pos p * 10 ^ e)%Z)
      by (apply Z.mul_pos_pos; [lia | apply Z.pow_pos_nonneg; lia]).
    destruct (Z.pos p * 10 ^ e)%Z as [ | q | q]; try lia.
    destruct s; simpl; apply binary_round_sign.
  - replace s with (xorb s false) at 1 by now destruct s.
    apply div_sign; simpl; auto using eqb_reflx.
Qed.

Lemma toFixedNumber_signClear (d : nat) (v : number) :
  signClear v = true -> signClear (toFixedNumber d v) = true.
Proof.
  unfold signClear, toFixedNumber.
  destruct v as [s' | s' | | s' m e]; auto.
  intros H. destruct (le _ _); auto.
  apply eqb_prop in H. subst s'. apply ofDecimal_sign.
Qed.

End Signs.

(** ** Differences and quotients at coinciding operands *)

Section Degenerate.

(** Equal operands subtract to a zero, or to NaN when they are infinite. *)
Lemma sub_eqb_zero_or_nan (a b : number) :
  eqb a b = true ->
  sub a b = S754_zero false \/ sub a b = S754_zero true \/ sub a b = NaN.
Proof.
  unfold eqb, SFeqb, sub.
  destruct a as [s1 | s1 | | s1 m1 e1], b as [s2 | s2 | | s2 m2 e2]; simpl;
    try discriminate; try (destruct s1; discriminate); try (destruct s2; discriminate).
  - destruct s1, s2; auto.
  - destruct s1, s2; auto; discriminate.
  - destruct s1, s2; try discriminate.
    + destruct (Z.compare_spec e1 e2); try discriminate. subst e2.
      fold (Pos.compare m1 m2).
      destruct (Pos.compare_spec m1 m2); try discriminate. subst m2. intros _.
      rewrite Z.sub_diag. auto.
    + destruct (Z.compare_spec e1 e2); try discriminate. subst e2.
      fold (Pos.compare m1 m2).
      destruct (Pos.compare_spec m1 m2); try discriminate. subst m2. intros _.
      rewrite Z.sub_diag. auto.
Qed.

(** Division by a zero: an infinity, or NaN. *)
Lemma div_by_zero (a : number) (s : bool) :
  isInfinite (div a (S754_zero s)) = true \/ div a (S754_zero s) = NaN.
Proof. destruct a; simpl; auto. Qed.

Lemma div_zero_or_nan_by_zero (a b : number) :
  (a = S754_zero false \/ a = S754_zero true \/ a = NaN) ->
  (b = S754_zero false \/ b = S754_zero true \/ b = NaN) ->
  div a b = NaN.
Proof. intros [-> | [-> | ->]] [-> | [-> | ->]]; reflexivity. Qed.

Lemma div_any_by_zero_or_nan (a b : number) :
  (b = S754_zero false \/ b = S754_zero true \/ b = NaN) ->
  isInfinite (div a b) = true \/ div a b = NaN.
Proof.
  intros [-> | [-> | ->]]; try apply div_by_zero.
  right. now destruct a.
Qed.

End Degenerate.

(** C9.  [calculateScale] returns exactly the two quotients of differences,
    [degreePerUnitY = (lat1 - lat2) / (y1 - y2)] and
    [degreePerUnitX = (lon1 - lon2) / (x1 - x2)], with no guard: when the
    two points share a cartesian coordinate on an axis ([==]), the scale of
    that axis is an infinity or NaN, and it is NaN when the GPS values on
    that axis coincide as well.  The value is returned as computed. *)
Theorem calculateScale_unguarded (p1 p2 : CalibratedPoint) :
  degreePerUnitY (calculateScale p1 p2) =
    div (sub (latitude (gps p1)) (latitude (gps p2)))
        (sub (y (cartesian p1)) (y (cartesian p2)))
  /\ degreePerUnitX (calculateScale p1 p2) =
    div (sub (longitude (gps p1)) (longitude (gps p2)))
        (sub (x (cartesian p1)) (x (cartesian p2)))
  /\ (eqb (y (cartesian p1)) (y (cartesian p2)) = true ->
        (isInfinite (degreePerUnitY (calculateScale p1 p2)) = true
         \/ degreePerUnitY (calculateScale p1 p2) = NaN)
        /\ (eqb (latitude (gps p1)) (latitude (gps p2)) = true ->
              degreePerUnitY (calculateScale p1 p2) = NaN))
  /\ (eqb (x (cartesian p1)) (x (cartesian p2)) = true ->
        (isInfinite (degreePerUnitX (calculateScale p1 p2)) = true
         \/ degreePerUnitX (calculateScale p1 p2) = NaN)
        /\ (eqb (longitude (gps p1)) (longitude (gps p2)) = true ->
              degreePerUnitX (calculateScale p1 p2) = NaN)).
Proof.
  repeat split; try reflexivity; intros; cbn [calculateScale degreePerUnitX degreePerUnitY];
    auto using div_any_by_zero_or_nan, div_zero_or_nan_by_zero, sub_eqb_zero_or_nan.
Qed.

(** The degenerate cases occur: a shared [y] with distinct latitudes gives
    an infinite scale, a shared [x] with equal longitudes gives NaN. *)
Lemma calculateScale_unguarded_witness :
  let p1 := point "10" "20" "40" "-74" in
  let p2 := point "10" "20" "41" "-74" in
  (eqb (y (cartesian p1)) (y (cartesian p2)) = true
   /\ isInfinite (degreePerUnitY (calculateScale p1 p2)) = true)
  /\ (eqb (x (cartesian p1)) (x (cartesian p2)) = true
      /\ eqb (longitude (gps p1)) (longitude (gps p2)) = true
      /\ degreePerUnitX (calculateScale p1 p2) = NaN).
Proof.
  intros p1 p2.
  destruct (calculateScale_unguarded p1 p2) as (_ & _ & _ & Hx).
  split.
  - split; vm_compute; reflexivity.
  - assert (E : eqb (x (cartesian p1)) (x (cartesian p2)) = true)
      by (vm_compute; reflexivity).
    assert (G : eqb (longitude (gps p1)) (longitude (gps p2)) = true)
      by (vm_compute; reflexivity).
    split; [exact E | split; [exact G | exact (proj2 (Hx E) G)]].
Defined.

(** ** Normalizing dimensions *)

Lemma sameNumber_eq (a b : number) : sameNumber a b = true -> a = b.
Proof.
  destruct a as [s | s | | s m e], b as [s' | s' | | s' m' e']; simpl; try discriminate; auto.
  - intros H. apply eqb_prop in H. now subst.
  - intros H. apply eqb_prop in H. now subst.
  - rewrite !andb_true_iff. intros [[H1 H2] H3].
    apply eqb_prop in H1. apply Pos.eqb_eq in H2. apply Z.eqb_eq in H3. now subst.
Qed.

Lemma squares_checked : forallb squareGives500 (seq 1 4096) = true.
Proof. vm_compute. reflexivity. Qed.

Lemma square_pixels_give_500 (n : nat) :
  1 <= n <= 4096 ->
  normalizeImageDimensions {| width := ofNat n; height := ofNat n |}
  = {| width := ofZ 500; height := ofZ 500 |}.
Proof.
  intros Hn.
  assert (Hin : In n (seq 1 4096)) by (apply in_seq; lia).
  pose proof (proj1 (forallb_forall _ _) squares_checked n Hin) as H.
  unfold squareGives500 in H. apply andb_true_iff in H as [Hw Hh].
  apply sameNumber_eq in Hw, Hh.
  destruct (normalizeImageDimensions _) as [w h]. simpl in *. now subst.
Qed.

Lemma eqb_not_gt (a b : number) : eqb a b = true -> gt a b = false.
Proof.
  unfold eqb, gt, SFeqb, SFltb.
  destruct a as [s1 | s1 | | s1 m1 e1], b as [s2 | s2 | | s2 m2 e2]; simpl;
    try discriminate; auto; try (destruct s1; discriminate); try (destruct s2; discriminate).
  - destruct s1, s2; auto; discriminate.
  - destruct s1, s2; try discriminate.
    + destruct (Z.compare_spec e1 e2); try discriminate. subst.
      rewrite Z.compare_refl. fold (Pos.compare m1 m2) (Pos.compare m2 m1).
      destruct (Pos.compare_spec m1 m2); try discriminate. subst.
      now rewrite Pos.compare_refl.
    + destruct (Z.compare_spec e1 e2); try discriminate. subst.
      rewrite Z.compare_refl. fold (Pos.compare m1 m2) (Pos.compare m2 m1).
      destruct (Pos.compare_spec m1 m2); try discriminate. subst.
      now rewrite Pos.compare_refl.
Qed.

(** C6 (amended).  If [width > height], [normalizeImageDimensions] returns
    [{width: 500, height: 500 * height / width}]; otherwise, the tie
    [width == height] included, it returns
    [{width: 500 * width / height, height: 500}], each operation rounding
    as the language does.  Equal dimensions therefore give a height of
    exactly 500 and the width [500 * width / width], which is exactly 500
    for every integer size from 1 to 4096. *)
Theorem normalizeImageDimensions_branches (dimensions : Dimensions) :
  (gt (width dimensions) (height dimensions) = true ->
     normalizeImageDimensions dimensions =
     {| width := ofZ 500;
        height := div (mul (ofZ 500) (height dimensions)) (width dimensions) |})
  /\ (gt (width dimensions) (height dimensions) = false ->
     normalizeImageDimensions dimensions =
     {| width := div (mul (ofZ 500) (width dimensions)) (height dimensions);
        height := ofZ 500 |})
  /\ (eqb (width dimensions) (height dimensions) = true ->
     normalizeImageDimensions dimensions =
     {| width := div (mul (ofZ 500) (width dimensions)) (height dimensions);
        height := ofZ 500 |})
  /\ (forall n, 1 <= n <= 4096 ->
     normalizeImageDimensions {| width := ofNat n; height := ofNat n |}
     = {| width := ofZ 500; height := ofZ 500 |}).
Proof.
  repeat split.
  - intros H. unfold normalizeImageDimensions. now rewrite H.
  - intros H. unfold normalizeImageDimensions. now rewrite H.
  - intros H. unfold normalizeImageDimensions. now rewrite (eqb_not_gt _ _ H).
  - apply square_pixels_give_500.
Qed.

(** The branches are taken: 1000 by 500 takes the first, 500 by 1000 and
    the tie 300 by 300 the second. *)
Lemma normalizeImageDimensions_branches_witness :
  normalizeImageDimensions {| width := ofZ 1000; height := ofZ 500 |}
    = {| width := ofZ 500; height := ofZ 250 |}
  /\ normalizeImageDimensions {| width := ofZ 500; height := ofZ 1000 |}
    = {| width := ofZ 250; height := ofZ 500 |}
  /\ normalizeImageDimensions {| width := ofZ 300; height := ofZ 300 |}
    = {| width := ofZ 500; height := ofZ 500 |}.
Proof.
  pose proof (normalizeImageDimensions_branches
                {| width := ofZ 1000; height := ofZ 500 |}) as (H1 & _).
  pose proof (normalizeImageDimensions_branches
                {| width := ofZ 500; height := ofZ 1000 |}) as (_ & H2 & _).
  pose proof (normalizeImageDimensions_branches
                {| width := ofZ 300; height := ofZ 300 |}) as (_ & _ & H3 & _).
  split; [ | split].
  - rewrite H1; vm_compute; reflexivity.
  - rewrite H2; vm_compute; reflexivity.
  - rewrite H3; vm_compute; reflexivity.
Defined.

(** C6, as stated, fails: the positive equal dimensions 1.1 by 1.1 give
    the width 499.99999999999994 (500 * 1.1 is exactly 550, and the
    quotient 550 / 1.1 rounds below 500), not a 500 by 500 square. *)
Lemma normalizeImageDimensions_tie_not_exact :
  gt (lit "1.1") pzero = true
  /\ normalizeImageDimensions {| width := lit "1.1"; height := lit "1.1" |}
     = {| width := lit "499.99999999999994"; height := ofZ 500 |}
  /\ eqb (lit "499.99999999999994") (ofZ 500) = false.
Proof. vm_compute. split; [ | split]; reflexivity. Qed.

(** C7 (amended).  [normalizeImageDimensions] applied to
    [{width: 500, height: 500}] returns [{width: 500, height: 500}]. *)
Theorem normalizeImageDimensions_500_500 :
  normalizeImageDimensions {| width := ofZ 500; height := ofZ 500 |}
  = {| width := ofZ 500; height := ofZ 500 |}.
Proof. vm_compute. reflexivity. Qed.

(** C7, as stated, fails: the width of the result is 500, which is not
    250. *)
Lemma normalizeImageDimensions_500_500_not_250 :
  width (normalizeImageDimensions {| width := ofZ 500; height := ofZ 500 |}) = ofZ 500
  /\ eqb (ofZ 500) (ofZ 250) = false
  /\ normalizeImageDimensions {| width := ofZ 500; height := ofZ 500 |}
     <> {| width := ofZ 250; height := ofZ 500 |}.
Proof. vm_compute. split; [ | split]; [reflexivity | reflexivity | discriminate]. Qed.

(** ** The loops of [calibrate] *)

Section Loops.

Lemma nth_error_middle {A : Type} (l1 l2 : list A) (a : A) :
  nth_error (l1 ++ a :: l2) (length l1) = Some a.
Proof. rewrite nth_error_app2, Nat.sub_diag by lia. reflexivity. Qed.

(** The inner loop (lines 71-74) pushes the scale of the fixed point
    against each later point. *)
Lemma inner_loop (set : list CalibratedPoint) (i : nat) (p : CalibratedPoint) :
  nth_error set i = Some p ->
  forall (l2 l1 : list CalibratedPoint) (acc : list MapScale),
    set = l1 ++ l2 ->
    forRange (length l1) (length l2) (fun j scales =>
        p1 <- nth_error set i ;;
        p2 <- nth_error set j ;;
        Some (scales ++ [calculateScale p1 p2])) acc
    = Some (acc ++ map (calculateScale p) l2).
Proof.
  intros Hp. rewrite Hp.
  induction l2 as [ | q l2 IH]; intros l1 acc Hset; simpl.
  - now rewrite app_nil_r.
  - assert (Hq : nth_error set (length l1) = Some q)
      by (subst set; apply nth_error_middle).
    rewrite Hq. simpl.
    specialize (IH (l1 ++ [q]) (acc ++ [calculateScale p q])).
    rewrite length_app, Nat.add_1_r in IH. simpl in IH.
    rewrite IH by (rewrite <- app_assoc; exact Hset).
    now rewrite <- app_assoc.
Qed.

Lemma pairScaleSeq_cons (p : CalibratedPoint) (l : list CalibratedPoint) :
  pairScaleSeq (p :: l) = map (calculateScale p) l ++ pairScaleSeq l.
Proof.
  unfold pairScaleSeq. simpl. rewrite map_app, map_map. reflexivity.
Qed.

(** The outer loop (lines 70-75), started at any point of the set. *)
Lemma outer_loop (set : list CalibratedPoint) :
  forall (l2 l1 : list CalibratedPoint) (acc : list MapScale),
    set = l1 ++ l2 ->
    forRange (length l1) (length l2 - 1) (fun i scales =>
      forRange (i + 1) (length set - (i + 1)) (fun j scales =>
        p1 <- nth_error set i ;;
        p2 <- nth_error set j ;;
        Some (scales ++ [calculateScale p1 p2])) scales) acc
    = Some (acc ++ pairScaleSeq l2).
Proof.
  induction l2 as [ | p l2 IH]; intros l1 acc Hset.
  - simpl. now rewrite app_nil_r.
  - destruct l2 as [ | q l2].
    + simpl. now rewrite app_nil_r.
    + replace (length (p :: q :: l2) - 1) with (S (length (q :: l2) - 1)) by (simpl; lia).
      cbn [forRange].
      assert (Hp : nth_error set (length l1) = Some p)
        by (subst set; apply nth_error_middle).
      assert (Hlen : length set - (length l1 + 1) = length (q :: l2))
        by (subst set; rewrite length_app; simpl; lia).
      rewrite Hlen.
      replace (length l1 + 1) with (length (l1 ++ [p]))
        by (rewrite length_app; reflexivity).
      rewrite (inner_loop set (length l1) p Hp (q :: l2) (l1 ++ [p]) acc)
        by (rewrite <- app_assoc; exact Hset).
      cbn [bind].
      replace (S (length l1)) with (length (l1 ++ [p]))
        by (rewrite length_app; simpl; lia).
      rewrite IH by (rewrite <- app_assoc; exact Hset).
      rewrite (pairScaleSeq_cons p), app_assoc. reflexivity.
Qed.

Lemma pairScales_spec (set : list CalibratedPoint) :
  pairScales set = Some (pairScaleSeq set).
Proof.
  unfold pairScales. exact (outer_loop set set [] [] eq_refl).
Qed.

(** The summing loop (lines 80-83), started at any entry. *)
Lemma sum_loop (scales : list MapScale) :
  forall (l2 l1 : list MapScale) (sums : number * number),
    scales = l1 ++ l2 ->
    forRange (length l1) (length l2) (fun i sums =>
      s <- nth_error scales i ;;
      Some (add (fst sums) (degreePerUnitX s),
            add (snd sums) (degreePerUnitY s))) sums
    = Some (fold_left add (map degreePerUnitX l2) (fst sums),
            fold_left add (map degreePerUnitY l2) (snd sums)).
Proof.
  induction l2 as [ | s l2 IH]; intros l1 sums Hs.
  - destruct sums; reflexivity.
  - cbn [length forRange].
    assert (H : nth_error scales (length l1) = Some s)
      by (subst scales; apply nth_error_middle).
    rewrite H. cbn [bind].
    replace (S (length l1)) with (length (l1 ++ [s]))
      by (rewrite length_app; simpl; lia).
    rewrite IH by (rewrite <- app_assoc; exact Hs). reflexivity.
Qed.

Lemma scaleSums_spec (scales : list MapScale) :
  scaleSums scales
  = Some (fold_left add (map degreePerUnitX scales) pzero,
          fold_left add (map degreePerUnitY scales) pzero).
Proof. exact (sum_loop scales scales [] (pzero, pzero) eq_refl). Qed.

(** There are C(n,2) pairs. *)
Lemma allPairs_length_double {A : Type} (l : list A) :
  2 * length (allPairs l) = length l * (length l - 1).
Proof.
  induction l as [ | a l IH]; simpl; auto.
  rewrite length_app, length_map. nia.
Qed.

Lemma allPairs_length {A : Type} (l : list A) :
  length (allPairs l) = choose2 (length l).
Proof.
  unfold choose2. rewrite <- allPairs_length_double.
  now rewrite Nat.mul_comm, Nat.div_mul.
Qed.

Lemma pairScaleSeq_length (set : list CalibratedPoint) :
  length (pairScaleSeq set) = choose2 (length set).
Proof. unfold pairScaleSeq. now rewrite length_map, allPairs_length. Qed.

(** The pair [(i, j)] sits at [pairIndex n i j]. *)
Lemma allPairs_nth {A : Type} (l : list A) :
  forall i j a b, i < j ->
    nth_error l i = Some a -> nth_error l j = Some b ->
    nth_error (allPairs l) (pairIndex (length l) i j) = Some (a, b).
Proof.
  induction l as [ | c l IH]; intros i j a b Hij Ha Hb.
  - destruct i; discriminate.
  - destruct j as [ | j]; [lia | ].
    destruct i as [ | i]; simpl in Ha, Hb.
    + injection Ha as ->. cbn [pairIndex allPairs].
      replace (S j - 1) with j by lia.
      rewrite nth_error_app1.
      * now rewrite nth_error_map, Hb.
      * rewrite length_map. apply nth_error_Some. congruence.
    + cbn [pairIndex allPairs length].
      replace (S (length l) - 1) with (length l) by lia.
      replace (S j - 1) with j by lia.
      rewrite nth_error_app2 by (rewrite length_map; lia).
      rewrite length_map.
      replace (length l + pairIndex (length l) i j - length l)
        with (pairIndex (length l) i j) by lia.
      apply IH; auto; lia.
Qed.

Lemma pairScaleSeq_nth (set : list CalibratedPoint) i j p q :
  i < j -> nth_error set i = Some p -> nth_error set j = Some q ->
  nth_error (pairScaleSeq set) (pairIndex (length set) i j)
  = Some (calculateScale p q).
Proof.
  intros Hij Hp Hq. unfold pairScaleSeq.
  now rewrite nth_error_map, (allPairs_nth set i j p q Hij Hp Hq).
Qed.

(** The pair count reaches the point count from three points on. *)
Lemma choose2_ge (n : nat) : n <= choose2 n <-> n = 0 \/ 3 <= n.
Proof.
  unfold choose2. split.
  - intros H. destruct n as [ | [ | [ | n]]]; auto; try (simpl in H; lia); right; lia.
  - intros [-> | H]; [simpl; lia | ].
    apply Nat.div_le_lower_bound; [lia | nia].
Qed.

(** The error loop (lines 125-136) over [count] entries from any entry
    on: it completes when that many entries are left, and tracks the
    maximum of each axis on its own. *)
Lemma maxDifference_loop (scales : list MapScale) (average : MapScale) :
  forall (count : nat) (l2 l1 : list MapScale) (acc : MaxDifference),
    scales = l1 ++ l2 -> count <= length l2 ->
    exists m,
      forRange (length l1) count (maxDifferenceStep scales average) acc = Some m
      /\ degreePerUnitX (scalesWithMaxDifference m) =
          runningMax
            (map (fun s => Math_abs (sub (degreePerUnitX s) (degreePerUnitX average)))
                 (firstn count l2))
            (degreePerUnitX (scalesWithMaxDifference acc))
      /\ degreePerUnitY (scalesWithMaxDifference m) =
          runningMax
            (map (fun s => Math_abs (sub (degreePerUnitY s) (degreePerUnitY average)))
                 (firstn count l2))
            (degreePerUnitY (scalesWithMaxDifference acc)).
Proof.
  induction count as [ | count IH]; intros l2 l1 acc Hs Hc.
  - exists acc. repeat split.
  - destruct l2 as [ | s l2]; [simpl in Hc; lia | ].
    cbn [forRange]. unfold maxDifferenceStep at 1.
    assert (H : nth_error scales (length l1) = Some s)
      by (subst scales; apply nth_error_middle).
    rewrite H. cbn [bind].
    replace (S (length l1)) with (length (l1 ++ [s]))
      by (rewrite length_app; simpl; lia).
    match goal with |- context [forRange _ _ _ ?a] => set (acc' := a) end.
    destruct (IH l2 (l1 ++ [s]) acc') as (m & Hm & Hx & Hy).
    + rewrite <- app_assoc. exact Hs.
    + simpl in Hc. lia.
    + exists m. split; [exact Hm | ]. split; [rewrite Hx | rewrite Hy]; reflexivity.
Qed.

(** The error loop throws when it runs past the last entry. *)
Lemma maxDifference_loop_throws (scales : list MapScale) (average : MapScale) :
  forall (l2 l1 : list MapScale) (count : nat) (acc : MaxDifference),
    scales = l1 ++ l2 -> length l2 < count ->
    forRange (length l1) count (maxDifferenceStep scales average) acc = None.
Proof.
  induction l2 as [ | s l2 IH]; intros l1 count acc Hs Hc.
  - destruct count as [ | count]; [simpl in Hc; lia | ].
    cbn [forRange]. unfold maxDifferenceStep at 1.
    assert (H : nth_error scales (length l1) = None)
      by (apply nth_error_None; subst scales; rewrite app_nil_r; lia).
    now rewrite H.
  - destruct count as [ | count]; [simpl in Hc; lia | ].
    cbn [forRange]. unfold maxDifferenceStep at 1.
    assert (H : nth_error scales (length l1) = Some s)
      by (subst scales; apply nth_error_middle).
    rewrite H. cbn [bind].
    replace (S (length l1)) with (length (l1 ++ [s]))
      by (rewrite length_app; simpl; lia).
    apply IH; [rewrite <- app_assoc; exact Hs | simpl in Hc; lia].
Qed.

(** The running maximum never falls below a value it has passed. *)
Lemma runningMax_upper (ds : list number) :
  forall m0 d, lt m0 d = false -> lt (runningMax ds m0) d = false.
Proof.
  induction ds as [ | d0 ds IH]; intros m0 d H; simpl; auto.
  apply IH. unfold gt. destruct (SFltb m0 d0) eqn:E; auto.
  destruct (lt d0 d) eqn:E'; auto.
  pose proof (lt_trans m0 d0 d E E'). congruence.
Qed.

Lemma runningMax_bounds (ds : list number) :
  forall m0 d, In d ds -> gt d (runningMax ds m0) = false.
Proof.
  induction ds as [ | d0 ds IH]; intros m0 d Hd; [destruct Hd | ].
  destruct Hd as [-> | H]; simpl.
  - apply runningMax_upper. unfold gt.
    destruct (SFltb m0 d) eqn:E; auto using lt_irrefl.
  - now apply IH.
Qed.

Lemma runningMax_in (ds : list number) :
  forall m0, runningMax ds m0 = m0 \/ In (runningMax ds m0) ds.
Proof.
  induction ds as [ | d0 ds IH]; intros m0; simpl; auto.
  destruct (IH (if gt d0 m0 then d0 else m0)) as [H | H]; auto.
  rewrite H. destruct (gt d0 m0); auto.
Qed.

(** The running maximum is never NaN: a NaN deviation is not greater. *)
Lemma runningMax_not_NaN (ds : list number) :
  forall m0, m0 <> NaN -> runningMax ds m0 <> NaN.
Proof.
  induction ds as [ | d0 ds IH]; intros m0 H0; simpl; auto.
  apply IH. unfold gt. destruct (SFltb m0 d0) eqn:E; auto.
  intros ->. destruct m0; discriminate.
Qed.

Lemma runningMax_IsMaxOf (ds : list number) : IsMaxOf (runningMax ds pzero) ds.
Proof.
  split; [apply runningMax_not_NaN; discriminate | ].
  split; [apply runningMax_in | intros d; apply runningMax_bounds].
Qed.

(** Over values with a clear sign bit the maximum is a number that is
    not negative. *)
Lemma runningMax_nonNegative (ds : list number) :
  forall m0, nonNegative m0 = true ->
    (forall d, In d ds -> signClear d = true) ->
    nonNegative (runningMax ds m0) = true.
Proof.
  induction ds as [ | d0 ds IH]; intros m0 H0 Hs; simpl; auto.
  apply IH; [ | intros d Hd; apply Hs; now right].
  unfold gt. destruct (SFltb m0 d0) eqn:E; auto.
  unfold nonNegative. rewrite (Hs d0) by now left.
  destruct d0; auto. destruct m0; discriminate.
Qed.

(** With no deviation above 0 the maximum stays at 0. *)
Lemma runningMax_zero (ds : list number) :
  (forall d, In d ds -> gt d pzero = false) -> runningMax ds pzero = pzero.
Proof.
  induction ds as [ | d0 ds IH]; intros H; simpl; auto.
  rewrite (H d0) by now left. apply IH. intros d Hd. apply H. now right.
Qed.

End Loops.

(** ** [calibrate], stage by stage *)

Section Calibrate.

Variable calibrationSet : list CalibratedPoint.
Variable imageDimensions : Dimensions.

(** Lines 67-98 complete as soon as the set has a first point. *)
Lemma calibrateCorners_Some (p0 : CalibratedPoint) :
  nth_error calibrationSet 0 = Some p0 ->
  exists c, calibrateCorners calibrationSet imageDimensions = Some c
            /\ CornersSpec calibrationSet imageDimensions c.
Proof.
  intros H0. unfold calibrateCorners.
  rewrite pairScales_spec. cbn [bind]. rewrite scaleSums_spec. cbn [bind fst snd].
  rewrite H0. cbn [bind].
  eexists. split; [reflexivity | ].
  unfold CornersSpec.
  cbn [normalizedDimensions scales averageScale originCoordinate oppositeCoordinate
       degreePerUnitX degreePerUnitY latitude longitude].
  repeat match goal with |- _ /\ _ => split end; try reflexivity.
  - apply pairScaleSeq_length.
  - intros i j p q. apply pairScaleSeq_nth.
  - unfold mean. now rewrite length_map.
  - unfold mean. now rewrite length_map.
  - intros p H. rewrite H0 in H. injection H as <-. split; reflexivity.
Qed.

(** [calibrationSet[0]] of an empty set is [undefined]: line 89 throws. *)
Lemma calibrateCorners_empty :
  calibrationSet = [] -> calibrateCorners calibrationSet imageDimensions = None.
Proof. intros ->. reflexivity. Qed.

Lemma calibrateCorners_scales (c : Corners) :
  calibrateCorners calibrationSet imageDimensions = Some c ->
  scales c = pairScaleSeq calibrationSet.
Proof.
  unfold calibrateCorners.
  rewrite pairScales_spec. cbn [bind]. rewrite scaleSums_spec. cbn [bind fst snd].
  destruct (nth_error calibrationSet 0); [ | discriminate].
  cbn [bind]. intros H. injection H as <-. reflexivity.
Qed.

(** The error loop completes exactly when the pair scales are at least as
    many as the points. *)
Lemma maxDifference_Some (c : Corners) :
  length calibrationSet <= length (scales c) ->
  exists m, maxDifference calibrationSet c = Some m
    /\ degreePerUnitX (scalesWithMaxDifference m)
       = runningMax (deviations degreePerUnitX c (length calibrationSet)) pzero
    /\ degreePerUnitY (scalesWithMaxDifference m)
       = runningMax (deviations degreePerUnitY c (length calibrationSet)) pzero.
Proof.
  intros H. unfold maxDifference, deviations.
  exact (maxDifference_loop (scales c) (averageScale c) (length calibrationSet)
           (scales c) [] _ eq_refl H).
Qed.

Lemma maxDifference_None (c : Corners) :
  length (scales c) < length calibrationSet ->
  maxDifference calibrationSet c = None.
Proof.
  intros H. unfold maxDifference.
  exact (maxDifference_loop_throws (scales c) (averageScale c)
           (scales c) [] _ _ eq_refl H).
Qed.

(** [calibrate] returns exactly on sets of three points or more. *)
Lemma calibrate_Some_iff :
  (exists r, calibrate calibrationSet imageDimensions = Some r)
  <-> 3 <= length calibrationSet.
Proof.
  unfold calibrate. split.
  - intros [r Hr].
    destruct (calibrateCorners calibrationSet imageDimensions) as [c | ] eqn:Ec;
      [ | discriminate].
    cbn [bind] in Hr.
    destruct (le_lt_dec (length calibrationSet) (length (scales c))) as [Hle | Hlt].
    + rewrite (calibrateCorners_scales c Ec), pairScaleSeq_length in Hle.
      apply choose2_ge in Hle as [H0 | H3]; auto.
      apply length_zero_iff_nil in H0.
      rewrite (calibrateCorners_empty H0) in Ec. discriminate.
    + rewrite (maxDifference_None c Hlt) in Hr. discriminate.
  - intros H3.
    assert (H0 : exists p0, nth_error calibrationSet 0 = Some p0).
    { destruct (nth_error calibrationSet 0) eqn:E; [eauto | ].
      apply nth_error_None in E. lia. }
    destruct H0 as [p0 H0].
    destruct (calibrateCorners_Some p0 H0) as (c & Hc & Hspec).
    rewrite Hc. cbn [bind].
    destruct (maxDifference_Some c) as (m & Hm & _).
    + rewrite (calibrateCorners_scales c Hc), pairScaleSeq_length.
      apply choose2_ge. right. exact H3.
    + rewrite Hm. cbn [bind]. eexists. reflexivity.
Qed.

(** What a returned result is made of. *)
Lemma calibrate_result (r : CalibrationResult) :
  calibrate calibrationSet imageDimensions = Some r ->
  exists c m,
    calibrateCorners calibrationSet imageDimensions = Some c
    /\ maxDifference calibrationSet c = Some m
    /\ r = {| maxError := maxErrorPercentage c m;
              origin := originCoordinate c;
              opposite := oppositeCoordinate c |}.
Proof.
  unfold calibrate. intros Hr.
  destruct (calibrateCorners calibrationSet imageDimensions) as [c | ]; [ | discriminate].
  cbn [bind] in Hr.
  destruct (maxDifference calibrationSet c) as [m | ] eqn:Em; [ | discriminate].
  cbn [bind] in Hr. injection Hr as <-.
  exists c, m. split; [reflexivity | split; [exact Em | reflexivity]].
Qed.

End Calibrate.

(** ** The scales, their average and the corners *)

(** C1.  For every calibration set of at least 2 points, [calibrate]
    computes one [MapScale] per unordered pair [i < j] in the enumeration
    [i = 0..n-2], [j = i+1..n-1] (C(n,2) of them, the pair [(i, j)] at
    [pairIndex n i j]); the average [degreePerUnitX] and [degreePerUnitY]
    are the means over all of them; [origin.latitude] is
    [set[0].gps.latitude - degreePerUnitY * set[0].cartesian.y], and
    likewise the longitude with [degreePerUnitX] and [cartesian.x];
    [opposite] is [origin] plus the normalized height times
    [degreePerUnitY] and the normalized width times [degreePerUnitX], the
    normalized dimensions being [normalizeImageDimensions] of the input.
    These are the variables of lines 67-98; a result that is returned
    carries this [origin] and [opposite], and one is returned on sets of
    three points or more. *)
Theorem calibrate_scales_and_corners
    (calibrationSet : list CalibratedPoint) (imageDimensions : Dimensions) :
  2 <= length calibrationSet ->
  exists c,
    calibrateCorners calibrationSet imageDimensions = Some c
    /\ CornersSpec calibrationSet imageDimensions c
    /\ (forall r, calibrate calibrationSet imageDimensions = Some r ->
          origin r = originCoordinate c /\ opposite r = oppositeCoordinate c)
    /\ (3 <= length calibrationSet ->
          exists r, calibrate calibrationSet imageDimensions = Some r).
Proof.
  intros Hn.
  assert (H0 : exists p0, nth_error calibrationSet 0 = Some p0).
  { destruct (nth_error calibrationSet 0) eqn:E; [eauto | ].
    apply nth_error_None in E. lia. }
  destruct H0 as [p0 H0].
  destruct (calibrateCorners_Some calibrationSet imageDimensions p0 H0)
    as (c & Hc & Hspec).
  exists c. split; [exact Hc | ]. split; [exact Hspec | ]. split.
  - intros r Hr.
    destruct (calibrate_result _ _ r Hr) as (c' & m & Hc' & _ & ->).
    rewrite Hc in Hc'. injection Hc' as <-. split; reflexivity.
  - apply calibrate_Some_iff.
Qed.

Lemma calibrate_scales_and_corners_witness :
  2 <= length twoCorners
  /\ exists c,
       calibrateCorners twoCorners square500 = Some c
       /\ CornersSpec twoCorners square500 c
       /\ (forall r, calibrate twoCorners square500 = Some r ->
             origin r = originCoordinate c /\ opposite r = oppositeCoordinate c)
       /\ (3 <= length twoCorners ->
             exists r, calibrate twoCorners square500 = Some r).
Proof.
  split; [simpl; lia | ].
  apply (calibrate_scales_and_corners twoCorners square500). simpl; lia.
Defined.

(** ** The error estimate *)

(** C2.  In [calibrate] the error estimate is computed by iterating the
    index [i] over [0..n-1] ([n] the length of the set), taking
    [|scales[i].degreePerUnitX - avgX|] and [|scales[i].degreePerUnitY - avgY|]
    from the pair-scale sequence of length C(n,2), tracking the maximum
    of each axis on its own, and reporting
    [maxError.x = (maxXDiff / diagonal) * 100] rounded to 3 decimals
    (likewise [y]), where
    [diagonal = sqrt((normalizedWidth * avgX)^2 + (normalizedHeight * avgY)^2)].
    On every set of three points or more a result with this estimate is
    returned. *)
Theorem calibrate_max_error
    (calibrationSet : list CalibratedPoint) (imageDimensions : Dimensions) :
  3 <= length calibrationSet ->
  exists r,
    calibrate calibrationSet imageDimensions = Some r
    /\ MaxErrorSpec calibrationSet imageDimensions r.
Proof.
  intros H3.
  destruct (proj2 (calibrate_Some_iff calibrationSet imageDimensions) H3) as [r Hr].
  exists r. split; [exact Hr | ].
  destruct (calibrate_result _ _ r Hr) as (c & m & Hc & Hm & ->).
  assert (Hs : scales c = pairScaleSeq calibrationSet)
    by apply (calibrateCorners_scales _ _ c Hc).
  assert (Hlen : length (scales c) = choose2 (length calibrationSet))
    by (rewrite Hs; apply pairScaleSeq_length).
  assert (Hle : length calibrationSet <= length (scales c))
    by (rewrite Hlen; apply choose2_ge; right; exact H3).
  destruct (maxDifference_Some calibrationSet c Hle) as (m' & Hm' & Hx & Hy).
  rewrite Hm in Hm'. injection Hm' as <-.
  exists c.
  split; [exact Hc | ]. split; [exact Hs | ]. split; [exact Hlen | ].
  split; [unfold deviations; rewrite length_map, length_firstn; lia | ].
  split; [unfold deviations; rewrite length_map, length_firstn; lia | ].
  split.
  { intros i s Hi Hsi. unfold deviations.
    rewrite !nth_error_map, !nth_error_firstn.
    destruct (Nat.ltb_spec i (length calibrationSet)) as [_ | Hge]; [ | lia].
    rewrite Hsi. split; reflexivity. }
  split; [apply runningMax_IsMaxOf | ].
  split; [apply runningMax_IsMaxOf | ].
  cbn [maxError maxErrorPercentage MaxError.x MaxError.y].
  rewrite Hx, Hy. split; [ | split; reflexivity].
  unfold diagonal.
  destruct (nth_error calibrationSet 0) as [p0 | ] eqn:E0.
  - destruct (calibrateCorners_Some calibrationSet imageDimensions p0 E0)
      as (c' & Hc' & Hn & _).
    rewrite Hc in Hc'. injection Hc' as <-. now rewrite Hn.
  - apply nth_error_None in E0. lia.
Qed.

(** Three points with differing pair scales: the maxima are the
    deviations 1.999999999998181e-05 and 0.00024000000000000914, and the
    result reports 0.014 and 0.168 percent. *)
Lemma calibrate_max_error_witness :
  3 <= length threeNoisy
  /\ exists r c,
       calibrate threeNoisy square500 = Some r
       /\ MaxErrorSpec threeNoisy square500 r
       /\ calibrateCorners threeNoisy square500 = Some c
       /\ runningMax (deviations degreePerUnitX c 3) pzero = lit "1.999999999998181e-05"
       /\ runningMax (deviations degreePerUnitY c 3) pzero = lit "0.00024000000000000914"
       /\ MaxError.x (maxError r) = lit "0.014"
       /\ MaxError.y (maxError r) = lit "0.168".
Proof.
  split; [simpl; lia | ].
  destruct (calibrate_max_error threeNoisy square500) as (r & Hr & Hspec);
    [simpl; lia | ].
  exists r. eexists. split; [exact Hr | ]. split; [exact Hspec | ].
  vm_compute in Hr. injection Hr as <-.
  split; [vm_compute; reflexivity | ].
  vm_compute. repeat apply conj; reflexivity.
Defined.

(** ** The bounds of the error loop *)

(** C3.  The error loop reads the pair-scale sequence at every position
    [0..n-1], and that sequence has [n(n-1)/2] entries.  For a set that
    has a point, every such read is in bounds if and only if [n >= 3]
    (an empty set has no position to read, and throws earlier, at
    [calibrationSet[0]]); so [calibrate] returns if and only if
    [n >= 3].  On exactly 2 points the sequence has one entry, the loop
    reads [scales[1]] past its end, and [calibrate] throws. *)
Theorem error_loop_in_bounds_iff
    (calibrationSet : list CalibratedPoint) (imageDimensions : Dimensions) :
  pairScales calibrationSet = Some (pairScaleSeq calibrationSet)
  /\ length (pairScaleSeq calibrationSet)
     = length calibrationSet * (length calibrationSet - 1) / 2
  /\ ((forall i, i < length calibrationSet ->
          nth_error (pairScaleSeq calibrationSet) i <> None)
      <-> (length calibrationSet = 0 \/ 3 <= length calibrationSet))
  /\ ((exists r, calibrate calibrationSet imageDimensions = Some r)
      <-> 3 <= length calibrationSet)
  /\ (length calibrationSet = 2 ->
        length (pairScaleSeq calibrationSet) = 1
        /\ nth_error (pairScaleSeq calibrationSet) 1 = None
        /\ calibrate calibrationSet imageDimensions = None).
Proof.
  split; [apply pairScales_spec | ].
  split; [apply pairScaleSeq_length | ].
  split; [ | split; [apply calibrate_Some_iff | ] ].
  - rewrite <- choose2_ge, <- pairScaleSeq_length. split.
    + intros H. destruct (length calibrationSet) as [ | n] eqn:E; [lia | ].
      specialize (H n (Nat.lt_succ_diag_r n)).
      apply nth_error_Some in H. lia.
    + intros H i Hi. apply nth_error_Some. lia.
  - intros H2.
    assert (H1 : length (pairScaleSeq calibrationSet) = 1)
      by (rewrite pairScaleSeq_length, H2; reflexivity).
    split; [exact H1 | ]. split.
    + apply nth_error_None. lia.
    + destruct (calibrate calibrationSet imageDimensions) as [r | ] eqn:E; auto.
      assert (H3 : 3 <= length calibrationSet)
        by (apply (calibrate_Some_iff calibrationSet imageDimensions); eauto).
      lia.
Qed.

Lemma error_loop_in_bounds_iff_witness :
  length twoCorners = 2
  /\ length (pairScaleSeq twoCorners) = 1
  /\ nth_error (pairScaleSeq twoCorners) 1 = None
  /\ calibrate twoCorners square500 = None.
Proof.
  split; [reflexivity | ].
  apply (error_loop_in_bounds_iff twoCorners square500). reflexivity.
Defined.

(** ** The scenario of two corner points *)

(** C4.  On the two corner points of the scenario, with a 500 by 500
    image, [calibrate] throws: no result is returned.  Lines 67-98 had
    computed an origin equal to the first point's GPS position and an
    opposite corner equal to the second point's, from scales that are
    0.00002 up to rounding (1.999999999999602e-05 and
    2.000000000001023e-05); and no set of two points gets a result. *)
Theorem calibrate_two_corners_throws :
  calibrate twoCorners square500 = None
  /\ (exists c,
        calibrateCorners twoCorners square500 = Some c
        /\ averageScale c = {| degreePerUnitX := lit "2.000000000001023e-05";
                               degreePerUnitY := lit "1.999999999999602e-05" |}
        /\ originCoordinate c = {| longitude := lit "-74.0"; latitude := lit "40.0" |}
        /\ oppositeCoordinate c = {| longitude := lit "-73.99"; latitude := lit "40.01" |})
  /\ (forall p q imageDimensions, calibrate [p; q] imageDimensions = None).
Proof.
  split; [vm_compute; reflexivity | ]. split.
  - eexists. split; [vm_compute; reflexivity | ].
    vm_compute. repeat apply conj; reflexivity.
  - intros p q d. reflexivity.
Qed.

(** ** Rounding of the result *)

Lemma calibrateCorners_spec
    (calibrationSet : list CalibratedPoint) (imageDimensions : Dimensions)
    (c : Corners) :
  calibrateCorners calibrationSet imageDimensions = Some c ->
  CornersSpec calibrationSet imageDimensions c.
Proof.
  intros Hc.
  destruct (nth_error calibrationSet 0) as [p0 | ] eqn:E0.
  - destruct (calibrateCorners_Some calibrationSet imageDimensions p0 E0)
      as (c' & Hc' & Hspec).
    rewrite Hc in Hc'. injection Hc' as <-. exact Hspec.
  - unfold calibrateCorners in Hc.
    rewrite pairScales_spec in Hc. cbn [bind] in Hc.
    rewrite scaleSums_spec in Hc. cbn [bind] in Hc.
    rewrite E0 in Hc. discriminate.
Qed.

(** C8 (amended).  In every result of [calibrate], [maxError.x] and
    [maxError.y] are rounded to 3 decimals; [origin] and [opposite] are
    the corners of lines 88-98 as computed, not rounded.  The rounding to
    6 decimals is applied to the top-left and down-right corners of lines
    100-113, which are not part of the result. *)
Theorem calibrate_rounding
    (calibrationSet : list CalibratedPoint) (imageDimensions : Dimensions)
    (r : CalibrationResult) :
  calibrate calibrationSet imageDimensions = Some r ->
  exists c m,
    calibrateCorners calibrationSet imageDimensions = Some c
    /\ maxDifference calibrationSet c = Some m
    /\ MaxError.x (maxError r) =
         toFixedNumber 3
           (mul (div (degreePerUnitX (scalesWithMaxDifference m)) (diagonal c)) (ofZ 100))
    /\ MaxError.y (maxError r) =
         toFixedNumber 3
           (mul (div (degreePerUnitY (scalesWithMaxDifference m)) (diagonal c)) (ofZ 100))
    /\ origin r = originCoordinate c
    /\ opposite r = oppositeCoordinate c
    /\ topLeftCoordinate c =
         {| longitude := toFixedNumber 6 (longitude (origin r));
            latitude := toFixedNumber 6 (latitude (opposite r)) |}
    /\ downRightCoordinate c =
         {| longitude := toFixedNumber 6 (longitude (opposite r));
            latitude := toFixedNumber 6 (latitude (origin r)) |}.
Proof.
  intros Hr.
  destruct (calibrate_result _ _ r Hr) as (c & m & Hc & Hm & ->).
  exists c, m. cbn [maxError origin opposite maxErrorPercentage MaxError.x MaxError.y].
  repeat match goal with |- _ /\ _ => split end; try reflexivity; try assumption.
  - destruct (calibrateCorners_spec _ _ c Hc)
      as (Hn & _ & _ & _ & _ & _ & _ & Hlat & _).
    unfold topLeftCoordinate. rewrite Hlat, Hn. reflexivity.
  - destruct (calibrateCorners_spec _ _ c Hc)
      as (Hn & _ & _ & _ & _ & _ & _ & _ & Hlon).
    unfold downRightCoordinate. rewrite Hlon, Hn. reflexivity.
Qed.

Lemma calibrate_rounding_witness :
  exists r,
    calibrate threeSevenDecimals square500 = Some r
    /\ MaxError.x (maxError r) = pzero
    /\ MaxError.y (maxError r) = lit "0.036"
    /\ exists c, topLeftCoordinate c =
         {| longitude := toFixedNumber 6 (longitude (origin r));
            latitude := toFixedNumber 6 (latitude (opposite r)) |}.
Proof.
  destruct (calibrate threeSevenDecimals square500) as [r | ] eqn:E.
  - exists r. split; [reflexivity | ].
    destruct (calibrate_rounding threeSevenDecimals square500 r E)
      as (c & m & _ & _ & _ & _ & _ & _ & Htl & _).
    vm_compute in E. injection E as <-.
    split; [reflexivity | ]. split; [vm_compute; reflexivity | ].
    exists c. exact Htl.
  - vm_compute in E. discriminate.
Defined.

(** C8, as stated, fails: on three points whose anchor has the latitude
    40.1234567, the returned [origin.latitude] is 40.1234567, which
    rounding to 6 decimals would change to 40.123457. *)
Lemma calibrate_origin_not_rounded :
  exists r,
    calibrate threeSevenDecimals square500 = Some r
    /\ latitude (origin r) = lit "40.1234567"
    /\ toFixedNumber 6 (latitude (origin r)) = lit "40.123457"
    /\ eqb (latitude (origin r)) (toFixedNumber 6 (latitude (origin r))) = false
    /\ ~ RoundedTo 6 (latitude (origin r)).
Proof.
  eexists. split; [vm_compute; reflexivity | ].
  unfold RoundedTo. vm_compute.
  split; [reflexivity | ]. split; [reflexivity | ]. split; [reflexivity | ].
  discriminate.
Qed.

(** ** The sign of the error estimate *)

Section ErrorSign.

Lemma ofZ_100 : ofZ 100 = S754_finite false 7036874417766400 (-46).
Proof. vm_compute. reflexivity. Qed.

Lemma nonNegative_signClear (v : number) : nonNegative v = true -> signClear v = true.
Proof. unfold nonNegative. now intros [H _]%andb_true_iff. Qed.

(** A clear sign bit: NaN, or at least 0. *)
Lemma signClear_ge_zero (v : number) :
  signClear v = true -> v = NaN \/ ge v pzero = true.
Proof. destruct v as [s | s | | s m e]; simpl; auto; destruct s; auto; discriminate. Qed.

Lemma diagonal_signClear (c : Corners) : signClear (diagonal c) = true.
Proof.
  unfold diagonal. apply sqrt_signClear, add_signClear; apply pow2_signClear.
Qed.

(** The percentage of a deviation that is not negative. *)
Lemma percentage_signClear (m d : number) :
  nonNegative m = true -> signClear d = true ->
  signClear (toFixedNumber 3 (mul (div m d) (ofZ 100))) = true.
Proof.
  intros Hm Hd. apply toFixedNumber_signClear.
  change (signIs (xorb false false) (mul (div m d) (ofZ 100)) = true).
  apply mul_sign; [ | rewrite ofZ_100; reflexivity].
  change (signIs (xorb false false) (div m d) = true).
  apply div_sign; [apply nonNegative_signClear, Hm | exact Hd].
Qed.

(** The percentage of a zero deviation over a positive diagonal. *)
Lemma percentage_zero (d : number) :
  gt d pzero = true ->
  toFixedNumber 3 (mul (div pzero d) (ofZ 100)) = pzero.
Proof.
  rewrite ofZ_100.
  destruct d as [s | s | | s m e]; simpl; try discriminate; destruct s;
    try discriminate; reflexivity.
Qed.

Lemma In_firstn {A : Type} (n : nat) (l : list A) (a : A) :
  In a (firstn n l) -> In a l.
Proof.
  intros H. rewrite <- (firstn_skipn n l). apply in_or_app. now left.
Qed.

Lemma deviations_signClear (proj : MapScale -> number) (c : Corners) (n : nat) :
  forall d, In d (deviations proj c n) -> signClear d = true.
Proof.
  unfold deviations. intros d Hd. apply in_map_iff in Hd as (s & <- & _).
  apply abs_signClear.
Qed.

(** Scales that equal the average deviate by nothing above 0. *)
Lemma deviations_zero (proj : MapScale -> number) (c : Corners) (n : nat) :
  (forall s, In s (scales c) -> eqb (proj s) (proj (averageScale c)) = true) ->
  forall d, In d (deviations proj c n) -> gt d pzero = false.
Proof.
  unfold deviations. intros H d Hd. apply in_map_iff in Hd as (s & <- & Hs).
  apply In_firstn in Hs. specialize (H s Hs).
  destruct (sub_eqb_zero_or_nan _ _ H) as [-> | [-> | ->]]; reflexivity.
Qed.

End ErrorSign.

Section Consistent.

(** [==] holds of a number and itself, and of two zeros. *)
Lemma eqb_cases (a b : number) :
  eqb a b = true -> a = b \/ (isZero a = true /\ isZero b = true).
Proof.
  unfold eqb, SFeqb.
  destruct a as [s1 | s1 | | s1 m1 e1], b as [s2 | s2 | | s2 m2 e2]; simpl;
    try discriminate; auto;
    try (destruct s1; discriminate); try (destruct s2; discriminate).
  - destruct s1, s2; auto; discriminate.
  - destruct s1, s2; try discriminate;
      destruct (Z.compare_spec e1 e2); try discriminate; subst e2;
      fold (Pos.compare m1 m2);
      destruct (Pos.compare_spec m1 m2); try discriminate; subst m2; auto.
Qed.

Lemma eqb_trans (a b c : number) :
  eqb a b = true -> eqb b c = true -> eqb a c = true.
Proof.
  intros H1 H2.
  destruct (eqb_cases a b H1) as [-> | [Za Zb]]; auto.
  destruct (eqb_cases b c H2) as [<- | [_ Zc]]; auto.
  destruct a, c; try discriminate. reflexivity.
Qed.

(** Scales that are pairwise equal, one of which equals the average, all
    equal the average. *)
Lemma consistent_equal_average (proj : MapScale -> number) (c : Corners) :
  (forall s s', In s (scales c) -> In s' (scales c) -> eqb (proj s) (proj s') = true) ->
  (exists s0, In s0 (scales c) /\ eqb (proj s0) (proj (averageScale c)) = true) ->
  forall s, In s (scales c) -> eqb (proj s) (proj (averageScale c)) = true.
Proof.
  intros Hp (s0 & H0 & Ha) s Hs.
  exact (eqb_trans _ _ _ (Hp s s0 Hs H0) Ha).
Qed.

End Consistent.

(** C10 (amended).  In every result of [calibrate], [maxError.x] and
    [maxError.y] are never negative: each is at least 0, or NaN.  For a
    set whose pair scales are all equal on an axis, the error of that
    axis is 0 when, in addition, the diagonal is greater than 0 and the
    averaged scale is equal to that common scale (the sum of equal
    scales, divided by their count, need not give the scale back). *)
Theorem calibrate_max_error_sign
    (calibrationSet : list CalibratedPoint) (imageDimensions : Dimensions)
    (r : CalibrationResult) :
  calibrate calibrationSet imageDimensions = Some r ->
  (MaxError.x (maxError r) = NaN \/ ge (MaxError.x (maxError r)) pzero = true)
  /\ (MaxError.y (maxError r) = NaN \/ ge (MaxError.y (maxError r)) pzero = true)
  /\ lt (MaxError.x (maxError r)) pzero = false
  /\ lt (MaxError.y (maxError r)) pzero = false
  /\ exists c,
       calibrateCorners calibrationSet imageDimensions = Some c
       /\ ((forall s s', In s (scales c) -> In s' (scales c) ->
              eqb (degreePerUnitX s) (degreePerUnitX s') = true) ->
           gt (diagonal c) pzero = true ->
           (exists s0, In s0 (scales c)
              /\ eqb (degreePerUnitX s0) (degreePerUnitX (averageScale c)) = true) ->
           MaxError.x (maxError r) = pzero)
       /\ ((forall s s', In s (scales c) -> In s' (scales c) ->
              eqb (degreePerUnitY s) (degreePerUnitY s') = true) ->
           gt (diagonal c) pzero = true ->
           (exists s0, In s0 (scales c)
              /\ eqb (degreePerUnitY s0) (degreePerUnitY (averageScale c)) = true) ->
           MaxError.y (maxError r) = pzero).
Proof.
  intros Hr.
  destruct (calibrate_result _ _ r Hr) as (c & m & Hc & Hm & ->).
  assert (Hle : length calibrationSet <= length (scales c)).
  { destruct (le_lt_dec (length calibrationSet) (length (scales c))); auto.
    rewrite (maxDifference_None _ c) in Hm by assumption. discriminate. }
  destruct (maxDifference_Some calibrationSet c Hle) as (m' & Hm' & Hx & Hy).
  rewrite Hm in Hm'. injection Hm' as <-.
  cbn [maxError maxErrorPercentage MaxError.x MaxError.y].
  assert (Sx : signClear (toFixedNumber 3
             (mul (div (degreePerUnitX (scalesWithMaxDifference m)) (diagonal c)) (ofZ 100))) = true).
  { apply percentage_signClear; [ | apply diagonal_signClear].
    rewrite Hx. apply runningMax_nonNegative; [reflexivity | apply deviations_signClear]. }
  assert (Sy : signClear (toFixedNumber 3
             (mul (div (degreePerUnitY (scalesWithMaxDifference m)) (diagonal c)) (ofZ 100))) = true).
  { apply percentage_signClear; [ | apply diagonal_signClear].
    rewrite Hy. apply runningMax_nonNegative; [reflexivity | apply deviations_signClear]. }
  split; [apply signClear_ge_zero, Sx | ].
  split; [apply signClear_ge_zero, Sy | ].
  split; [destruct (toFixedNumber 3 _) as [[ | ] | [ | ] | | [ | ] ? ?];
          try discriminate; reflexivity | ].
  split; [destruct (toFixedNumber 3 (mul (div (degreePerUnitY _) _) _))
            as [[ | ] | [ | ] | | [ | ] ? ?];
          try discriminate; reflexivity | ].
  exists c. split; [exact Hc | ]. split.
  - intros Hp Hd Ha.
    rewrite Hx, runningMax_zero
      by (apply deviations_zero, (consistent_equal_average degreePerUnitX c Hp Ha)).
    apply percentage_zero, Hd.
  - intros Hp Hd Ha.
    rewrite Hy, runningMax_zero
      by (apply deviations_zero, (consistent_equal_average degreePerUnitY c Hp Ha)).
    apply percentage_zero, Hd.
Qed.

(** Three points on a line with exact scales, 1/128 for every pair and
    for the average: both errors are 0. *)
Lemma calibrate_max_error_sign_witness :
  exists r,
    calibrate threeExact square500 = Some r
    /\ ge (MaxError.x (maxError r)) pzero = true
    /\ MaxError.x (maxError r) = pzero
    /\ MaxError.y (maxError r) = pzero.
Proof.
  destruct (calibrate threeExact square500) as [r | ] eqn:E;
    [ | vm_compute in E; discriminate].
  exists r. split; [reflexivity | ].
  destruct (calibrate_max_error_sign threeExact square500 r E)
    as (_ & _ & _ & _ & c & Hc & Hx & Hy).
  vm_compute in Hc. injection Hc as <-.
  assert (X : MaxError.x (maxError r) = pzero).
  { apply Hx.
    - intros s s' [<- | [<- | [<- | []]]] [<- | [<- | [<- | []]]];
        vm_compute; reflexivity.
    - vm_compute; reflexivity.
    - eexists. split; [left; reflexivity | vm_compute; reflexivity]. }
  assert (Y : MaxError.y (maxError r) = pzero).
  { apply Hy.
    - intros s s' [<- | [<- | [<- | []]]] [<- | [<- | [<- | []]]];
        vm_compute; reflexivity.
    - vm_compute; reflexivity.
    - eexists. split; [left; reflexivity | vm_compute; reflexivity]. }
  rewrite X. split; [reflexivity | ]. split; [reflexivity | exact Y].
Defined.

(** C10, as stated, fails, in two ways.  Three distinct pixels at one GPS
    position make a set that [calibrate] accepts and whose pair scales
    are all equal (all zero), yet both errors are NaN (0 / 0, the
    diagonal being 0), which is neither at least 0 nor equal to 0.  And
    on three points of a line whose pair scales are all exactly 0.1 in
    longitude and 0 in latitude, in a strip of 1 by 1e15 pixels, the
    diagonal is greater than 0 and [maxError.x] is 0.028: the average of
    the three equal scales is 0.10000000000000002. *)
Lemma calibrate_consistent_set_nonzero_error :
  (exists r c,
     calibrate threeSamePosition square500 = Some r
     /\ calibrateCorners threeSamePosition square500 = Some c
     /\ consistentScales (scales c) = true
     /\ MaxError.x (maxError r) = NaN
     /\ MaxError.y (maxError r) = NaN
     /\ ge (MaxError.x (maxError r)) pzero = false
     /\ ge (MaxError.y (maxError r)) pzero = false
     /\ eqb (MaxError.x (maxError r)) pzero = false
     /\ eqb (MaxError.y (maxError r)) pzero = false)
  /\ (exists r c,
        calibrate threeOnALine strip = Some r
        /\ calibrateCorners threeOnALine strip = Some c
        /\ consistentScales (scales c) = true
        /\ map degreePerUnitX (scales c) = [lit "0.1"; lit "0.1"; lit "0.1"]
        /\ degreePerUnitX (averageScale c) = lit "0.10000000000000002"
        /\ gt (diagonal c) pzero = true
        /\ MaxError.x (maxError r) = lit "0.028"
        /\ eqb (MaxError.x (maxError r)) pzero = false).
Proof.
  split.
  - eexists. eexists.
    split; [vm_compute; reflexivity | ].
    split; [vm_compute; reflexivity | ].
    vm_compute. repeat apply conj; reflexivity.
  - eexists. eexists.
    split; [vm_compute; reflexivity | ].
    split; [vm_compute; reflexivity | ].
    vm_compute. repeat apply conj; reflexivity.
Qed.

(** ** Validation of GPS text *)

Section GPSText.

Lemma indexOf_ge_m1 (c : Ascii.ascii) (s : String.string) :
  (-1 <= JSString.indexOf c s)%Z.
Proof.
  induction s as [ | a s IH]; simpl; [lia | ].
  destruct (Ascii.eqb a c); [lia | ].
  destruct (JSString.indexOf c s); lia.
Qed.

(** [indexOf] answers -1 exactly on the strings without the character. *)
Lemma indexOf_contains (c : Ascii.ascii) (s : String.string) :
  (JSString.indexOf c s =? -1)%Z = negb (contains c s).
Proof.
  induction s as [ | a s IH]; simpl; auto.
  destruct (Ascii.eqb a c); simpl; auto.
  rewrite <- IH. pose proof (indexOf_ge_m1 c s).
  destruct (JSString.indexOf c s) as [ | p | p] eqn:E; simpl; auto.
  assert (p = 1%positive) by lia. subst. reflexivity.
Qed.

(** The first field of [split] is the text before the first separator, and
    the others are the fields of the text after it. *)
Lemma split_fields (c : Ascii.ascii) (s : String.string) :
  JSString.split c s =
    beforeSep c s ::
    (if contains c s then JSString.split c (afterSep c s) else []).
Proof.
  induction s as [ | a s IH]; simpl; auto.
  destruct (Ascii.eqb a c); simpl; auto.
  rewrite IH. reflexivity.
Qed.

Lemma split_second (c : Ascii.ascii) (s : String.string) (d : String.string) :
  contains c s = true ->
  nth 1 (JSString.split c s) d = beforeSep c (afterSep c s).
Proof.
  intros H. rewrite split_fields, H. cbn [nth].
  now rewrite split_fields.
Qed.

(** A comparison with NaN is false. *)
Lemma inRange_NaN (lo hi : Z) : inRange lo hi NaN = false.
Proof.
  unfold inRange, ge, le, SFleb. now destruct (ofZ lo).
Qed.

(** A string with the separator is its first field, the separator and the
    rest, and the first field has no separator. *)
Lemma beforeSep_afterSep (c : Ascii.ascii) (s : String.string) :
  contains c s = true ->
  s = String.append (beforeSep c s) (String.String c (afterSep c s))
  /\ contains c (beforeSep c s) = false.
Proof.
  induction s as [ | a s IH]; simpl; [discriminate | ].
  destruct (Ascii.eqb_spec a c) as [-> | Hne]; simpl.
  - auto.
  - intros H. destruct (IH H) as [E1 E2]. split.
    + now rewrite <- E1.
    + apply Ascii.eqb_neq in Hne. now rewrite Hne.
Qed.

End GPSText.

(** C5.  [isValidGPSInput] returns false on an input without a comma;
    on any other input it returns true if and only if the first
    comma-separated field parses to a number within [-90, 90] and the
    second to a number within [-180, 180].  A field that does not parse
    gives NaN, which fails both comparisons of a range, so the answer is
    false.  The function is total: it never throws. *)
Theorem isValidGPSInput_spec (input : String.string) :
  (contains JSString.comma input = false -> isValidGPSInput input = false)
  /\ (contains JSString.comma input = true ->
        isValidGPSInput input =
          inRange (-90) 90 (JSString.parseFloat (firstField input))
          && inRange (-180) 180 (JSString.parseFloat (secondField input)))
  /\ (JSString.parseFloat (firstField input) = NaN
      \/ JSString.parseFloat (secondField input) = NaN ->
      isValidGPSInput input = false)
  /\ (forall v, v = NaN ->
        ge v (ofZ (-90)) = false /\ le v (ofZ 90) = false
        /\ ge v (ofZ (-180)) = false /\ le v (ofZ 180) = false).
Proof.
  assert (Hyes : contains JSString.comma input = true ->
        isValidGPSInput input =
          inRange (-90) 90 (JSString.parseFloat (firstField input))
          && inRange (-180) 180 (JSString.parseFloat (secondField input))).
  { intros H. unfold isValidGPSInput.
    rewrite indexOf_contains, H. cbn [negb].
    change NaN with (JSString.parseFloat "") at 1 2 3 4.
    rewrite !map_nth. rewrite (split_second _ _ _ H).
    rewrite split_fields. cbn [nth].
    unfold inRange, firstField, secondField.
    now rewrite !andb_assoc. }
  assert (Hno : contains JSString.comma input = false -> isValidGPSInput input = false).
  { intros H. unfold isValidGPSInput. now rewrite indexOf_contains, H. }
  split; [exact Hno | ]. split; [exact Hyes | ]. split.
  - intros Hnan. destruct (contains JSString.comma input) eqn:E; [ | now apply Hno].
    rewrite (Hyes eq_refl).
    destruct Hnan as [-> | ->]; rewrite inRange_NaN; auto using andb_false_r.
  - intros v ->. repeat apply conj; reflexivity.
Qed.

Lemma isValidGPSInput_spec_witness :
  (contains JSString.comma "40.0,-74.0" = true
   /\ isValidGPSInput "40.0,-74.0" = true
   /\ firstField "40.0,-74.0" = "40.0" /\ secondField "40.0,-74.0" = "-74.0")
  /\ (contains JSString.comma "40.0 -74.0" = false
      /\ isValidGPSInput "40.0 -74.0" = false)
  /\ (JSString.parseFloat (secondField "40.0,east") = NaN
      /\ isValidGPSInput "40.0,east" = false).
Proof.
  split; [ | split].
  - split; [reflexivity | ]. split; [ | split; reflexivity].
    rewrite (proj1 (proj2 (isValidGPSInput_spec "40.0,-74.0")) eq_refl).
    vm_compute. reflexivity.
  - split; [reflexivity | ].
    exact (proj1 (isValidGPSInput_spec "40.0 -74.0") eq_refl).
  - split; [reflexivity | ].
    apply (proj1 (proj2 (proj2 (isValidGPSInput_spec "40.0,east")))).
    right. reflexivity.
Defined.

(** * Further properties of the code *)

(** ** [isValidGPSInput]: fields, white space, bounds *)

Section GPSFields.

Lemma contains_append (c : Ascii.ascii) (a b : String.string) :
  contains c (String.append a b) = contains c a || contains c b.
Proof.
  induction a as [ | ch a IH]; simpl; auto.
  rewrite IH. now rewrite orb_assoc.
Qed.

Lemma beforeSep_append (c : Ascii.ascii) (a r : String.string) :
  contains c a = false ->
  beforeSep c (String.append a (String.String c r)) = a.
Proof.
  induction a as [ | ch a IH]; simpl.
  - now rewrite Ascii.eqb_refl.
  - destruct (Ascii.eqb ch c); simpl; [discriminate | ].
    intros H. now rewrite IH.
Qed.

Lemma afterSep_append (c : Ascii.ascii) (a r : String.string) :
  contains c a = false ->
  afterSep c (String.append a (String.String c r)) = r.
Proof.
  induction a as [ | ch a IH]; simpl.
  - now rewrite Ascii.eqb_refl.
  - destruct (Ascii.eqb ch c); simpl; [discriminate | ]. exact IH.
Qed.

Lemma beforeSep_no_sep (c : Ascii.ascii) (a : String.string) :
  contains c a = false -> beforeSep c a = a.
Proof.
  induction a as [ | ch a IH]; simpl; auto.
  destruct (Ascii.eqb ch c); simpl; [discriminate | ].
  intros H. now rewrite IH.
Qed.

(** The answer on an input with a comma, by its first two fields. *)
Lemma isValidGPSInput_fields (input : String.string) :
  contains JSString.comma input = true ->
  isValidGPSInput input =
    inRange (-90) 90 (JSString.parseFloat (firstField input))
    && inRange (-180) 180 (JSString.parseFloat (secondField input)).
Proof.
  intros H. unfold isValidGPSInput.
  rewrite indexOf_contains, H. cbn [negb].
  change NaN with (JSString.parseFloat "") at 1 2 3 4.
  rewrite !map_nth. rewrite (split_second _ _ _ H).
  rewrite split_fields. cbn [nth].
  unfold inRange, firstField, secondField.
  now rewrite !andb_assoc.
Qed.

Lemma isValidGPSInput_no_comma (input : String.string) :
  contains JSString.comma input = false -> isValidGPSInput input = false.
Proof. intros H. unfold isValidGPSInput. now rewrite indexOf_contains, H. Qed.

(** The answer on two comma-free fields written as [a,b]. *)
Lemma isValidGPSInput_gpsText (a b : String.string) :
  contains JSString.comma a = false ->
  contains JSString.comma b = false ->
  isValidGPSInput (gpsText a b) =
    inRange (-90) 90 (JSString.parseFloat a)
    && inRange (-180) 180 (JSString.parseFloat b).
Proof.
  intros Ha Hb. unfold gpsText.
  rewrite isValidGPSInput_fields.
  - unfold firstField, secondField.
    rewrite beforeSep_append, afterSep_append, beforeSep_no_sep by assumption.
    reflexivity.
  - rewrite contains_append. cbn [contains].
    unfold JSString.comma at 1 2. rewrite Ascii.eqb_refl. apply orb_true_r.
Qed.

(** Within a range of finite bounds: not NaN, not an infinity. *)
Lemma inRange_finite (lo hi : Z) (v : number) :
  isFiniteNumber (ofZ lo) = true -> isFiniteNumber (ofZ hi) = true ->
  inRange lo hi v = true -> isFiniteNumber v = true.
Proof.
  unfold inRange, ge, le, SFleb.
  destruct v as [s | s | | s m e]; auto.
  - destruct (ofZ lo) as [s1 | s1 | | s1 m1 e1], (ofZ hi) as [s2 | s2 | | s2 m2 e2];
      try discriminate; destruct s; cbn [SFcompare andb]; intros _ _ H;
      try discriminate; try (destruct s1; discriminate); try (destruct s2; discriminate);
      apply andb_true_iff in H as [H1 H2]; try discriminate;
      try (destruct s1; discriminate); try (destruct s2; discriminate).
  - destruct (ofZ lo) as [s1 | s1 | | s1 m1 e1]; intros; discriminate.
Qed.

End GPSFields.

(** X1.  An accepted input has a comma, and its first two fields parse to
    finite numbers (never NaN, never an infinity) within the two ranges. *)
Theorem isValidGPSInput_accepts_finite (input : String.string) :
  isValidGPSInput input = true ->
  contains JSString.comma input = true
  /\ isFiniteNumber (JSString.parseFloat (firstField input)) = true
  /\ isFiniteNumber (JSString.parseFloat (secondField input)) = true
  /\ inRange (-90) 90 (JSString.parseFloat (firstField input)) = true
  /\ inRange (-180) 180 (JSString.parseFloat (secondField input)) = true.
Proof.
  intros H.
  destruct (contains JSString.comma input) eqn:E.
  - rewrite (isValidGPSInput_fields input E) in H.
    apply andb_true_iff in H as [H1 H2].
    repeat split; auto; eapply inRange_finite; eauto; vm_compute; reflexivity.
  - rewrite (isValidGPSInput_no_comma input E) in H. discriminate.
Qed.

Lemma isValidGPSInput_accepts_finite_witness :
  isValidGPSInput "40.0,-74.0" = true
  /\ isFiniteNumber (JSString.parseFloat (firstField "40.0,-74.0")) = true
  /\ isFiniteNumber (JSString.parseFloat (secondField "40.0,-74.0")) = true.
Proof.
  assert (H : isValidGPSInput "40.0,-74.0" = true) by (vm_compute; reflexivity).
  split; [exact H | ].
  destruct (isValidGPSInput_accepts_finite "40.0,-74.0" H) as (_ & H1 & H2 & _).
  split; [exact H1 | exact H2].
Defined.

(** X2.  Whatever follows a second comma is ignored: [a,b,t] is accepted
    exactly when [a,b] is. *)
Theorem isValidGPSInput_ignores_third_field (a b t : String.string) :
  contains JSString.comma a = false ->
  contains JSString.comma b = false ->
  isValidGPSInput (gpsText a (gpsText b t)) = isValidGPSInput (gpsText a b).
Proof.
  intros Ha Hb.
  rewrite (isValidGPSInput_gpsText a b Ha Hb).
  rewrite isValidGPSInput_fields.
  - unfold firstField, secondField, gpsText.
    rewrite beforeSep_append, afterSep_append by assumption.
    rewrite beforeSep_append by assumption. reflexivity.
  - unfold gpsText. rewrite contains_append. cbn [contains].
    unfold JSString.comma at 1 2. rewrite Ascii.eqb_refl. apply orb_true_r.
Qed.

Lemma isValidGPSInput_ignores_third_field_witness :
  isValidGPSInput "40.0,-74.0,not a number" = isValidGPSInput "40.0,-74.0"
  /\ isValidGPSInput "40.0,-74.0,not a number" = true.
Proof.
  split; [ | vm_compute; reflexivity].
  apply (isValidGPSInput_ignores_third_field "40.0" "-74.0" "not a number");
    reflexivity.
Defined.

Section WhiteSpace.

Lemma isWhiteSpace_not_comma (c : Ascii.ascii) :
  JSString.isWhiteSpace c = true -> Ascii.eqb c JSString.comma = false.
Proof.
  destruct c as [[ | ] [ | ] [ | ] [ | ] [ | ] [ | ] [ | ] [ | ]];
    intros H; try reflexivity; vm_compute in H; discriminate.
Qed.

Lemma allWhiteSpace_no_comma (w : String.string) :
  allWhiteSpace w = true -> contains JSString.comma w = false.
Proof.
  induction w as [ | c w IH]; simpl; auto.
  intros [Hc Hw]%andb_true_iff.
  now rewrite (isWhiteSpace_not_comma c Hc), IH.
Qed.

Lemma trimStart_append (w s : String.string) :
  allWhiteSpace w = true ->
  JSString.trimStart (String.append w s) = JSString.trimStart s.
Proof.
  induction w as [ | c w IH]; simpl; auto.
  intros [Hc Hw]%andb_true_iff. rewrite Hc. now apply IH.
Qed.

(** [parseFloat] skips leading white space. *)
Lemma parseFloat_append (w s : String.string) :
  allWhiteSpace w = true ->
  JSString.parseFloat (String.append w s) = JSString.parseFloat s.
Proof.
  intros H. unfold JSString.parseFloat. now rewrite trimStart_append.
Qed.

End WhiteSpace.

(** X3.  White space in front of either field changes nothing: an input such
    as [40.0, -74.0], with a space after the comma, is judged as
    [40.0,-74.0] is. *)
Theorem isValidGPSInput_leading_white_space (w1 w2 a b : String.string) :
  allWhiteSpace w1 = true -> allWhiteSpace w2 = true ->
  contains JSString.comma a = false ->
  contains JSString.comma b = false ->
  isValidGPSInput (gpsText (String.append w1 a) (String.append w2 b))
  = isValidGPSInput (gpsText a b).
Proof.
  intros H1 H2 Ha Hb.
  rewrite !isValidGPSInput_gpsText;
    rewrite ?contains_append, ?allWhiteSpace_no_comma by assumption;
    try assumption.
  now rewrite !parseFloat_append by assumption.
Qed.

Lemma isValidGPSInput_leading_white_space_witness :
  isValidGPSInput " 40.0, -74.0" = isValidGPSInput "40.0,-74.0"
  /\ isValidGPSInput " 40.0, -74.0" = true.
Proof.
  split; [ | vm_compute; reflexivity].
  apply (isValidGPSInput_leading_white_space " " " " "40.0" "-74.0"); reflexivity.
Defined.

Section IntegerBounds.

Lemma integersFrom_In (lo : Z) (count : nat) (z : Z) :
  (lo <= z < lo + Z.of_nat count)%Z -> In z (integersFrom lo count).
Proof.
  intros H. unfold integersFrom. apply in_map_iff.
  exists (Z.to_nat (z - lo)). split; [lia | apply in_seq; lia].
Qed.

Lemma latitudes_checked :
  forallb (decimalFieldAgrees (-90) 90) (integersFrom (-1000) 2001) = true.
Proof. vm_compute. reflexivity. Qed.

Lemma longitudes_checked :
  forallb (decimalFieldAgrees (-180) 180) (integersFrom (-1000) 2001) = true.
Proof. vm_compute. reflexivity. Qed.

End IntegerBounds.

(** X4.  Both bounds of both ranges are inclusive, and nothing beyond them
    passes: for integers [lat] and [lon] between -1000 and 1000 written
    in decimal, the input [lat,lon] is accepted exactly when
    [-90 <= lat <= 90] and [-180 <= lon <= 180]. *)
Theorem isValidGPSInput_integer_bounds (lat lon : Z) :
  (-1000 <= lat <= 1000)%Z -> (-1000 <= lon <= 1000)%Z ->
  isValidGPSInput (gpsText (decimalText lat) (decimalText lon))
  = ((-90 <=? lat)%Z && (lat <=? 90)%Z) && ((-180 <=? lon)%Z && (lon <=? 180)%Z).
Proof.
  intros Hlat Hlon.
  assert (I1 : In lat (integersFrom (-1000) 2001))
    by (apply integersFrom_In; lia).
  assert (I2 : In lon (integersFrom (-1000) 2001))
    by (apply integersFrom_In; lia).
  pose proof (proj1 (forallb_forall _ _) latitudes_checked lat I1) as H1.
  pose proof (proj1 (forallb_forall _ _) longitudes_checked lon I2) as H2.
  unfold decimalFieldAgrees in H1, H2.
  apply andb_true_iff in H1 as [E1 C1], H2 as [E2 C2].
  apply eqb_prop in E1, E2. apply negb_true_iff in C1, C2.
  rewrite (isValidGPSInput_gpsText _ _ C1 C2), E1, E2. reflexivity.
Qed.

Lemma isValidGPSInput_integer_bounds_witness :
  isValidGPSInput "-90,180" = true /\ isValidGPSInput "91,0" = false
  /\ isValidGPSInput "0,-181" = false.
Proof.
  split; [ | split].
  - apply (isValidGPSInput_integer_bounds (-90) 180); lia.
  - apply (isValidGPSInput_integer_bounds 91 0); lia.
  - apply (isValidGPSInput_integer_bounds 0 (-181)); lia.
Defined.

(** ** [calibrate]: which pairs the error loop reads *)

Section InspectedPairs.

Variables p0 p1 p2 : CalibratedPoint.
Variable rest : list CalibratedPoint.

(** The first [n] pair scales of a set of [n >= 3] points: the pairs of
    the first point with every other point, then the pair of the second
    and third points. *)
Lemma firstn_pairScaleSeq :
  firstn (length (p0 :: p1 :: p2 :: rest)) (pairScaleSeq (p0 :: p1 :: p2 :: rest))
  = map (calculateScale p0) (p1 :: p2 :: rest) ++ [calculateScale p1 p2].
Proof.
  rewrite pairScaleSeq_cons.
  replace (length (p0 :: p1 :: p2 :: rest))
    with (length (map (calculateScale p0) (p1 :: p2 :: rest)) + 1)
    by (rewrite length_map; simpl; lia).
  rewrite firstn_app_2. reflexivity.
Qed.

End InspectedPairs.

(** X6.  On three points or more, the error estimate is the maximum over the
    scales of the pairs (0,1), (0,2), ..., (0,n-1) and (1,2), and of no
    other pair: with four points or more the remaining pairs enter the
    average but are never compared with it. *)
Theorem calibrate_inspected_pairs
    (p0 p1 p2 : CalibratedPoint) (rest : list CalibratedPoint)
    (imageDimensions : Dimensions) :
  exists r c,
    calibrate (p0 :: p1 :: p2 :: rest) imageDimensions = Some r
    /\ calibrateCorners (p0 :: p1 :: p2 :: rest) imageDimensions = Some c
    /\ MaxError.x (maxError r) =
         toFixedNumber 3
           (mul (div (runningMax
                        (map (fun s => Math_abs (sub (degreePerUnitX s)
                                                     (degreePerUnitX (averageScale c))))
                             (map (calculateScale p0) (p1 :: p2 :: rest)
                              ++ [calculateScale p1 p2]))
                        pzero)
                     (diagonal c))
                (ofZ 100))
    /\ MaxError.y (maxError r) =
         toFixedNumber 3
           (mul (div (runningMax
                        (map (fun s => Math_abs (sub (degreePerUnitY s)
                                                     (degreePerUnitY (averageScale c))))
                             (map (calculateScale p0) (p1 :: p2 :: rest)
                              ++ [calculateScale p1 p2]))
                        pzero)
                     (diagonal c))
                (ofZ 100)).
Proof.
  set (cs := p0 :: p1 :: p2 :: rest).
  destruct (proj2 (calibrate_Some_iff cs imageDimensions)) as [r Hr];
    [simpl; lia | ].
  destruct (calibrate_result _ _ r Hr) as (c & m & Hc & Hm & ->).
  assert (Hle : length cs <= length (scales c)).
  { destruct (le_lt_dec (length cs) (length (scales c))); auto.
    rewrite (maxDifference_None _ c) in Hm by assumption. discriminate. }
  destruct (maxDifference_Some cs c Hle) as (m' & Hm' & Hx & Hy).
  rewrite Hm in Hm'. injection Hm' as <-.
  eexists. exists c. split; [exact Hr | ]. split; [exact Hc | ].
  cbn [maxError maxErrorPercentage MaxError.x MaxError.y].
  rewrite Hx, Hy. unfold deviations.
  rewrite (calibrateCorners_scales _ _ c Hc).
  unfold cs. rewrite firstn_pairScaleSeq. split; reflexivity.
Qed.

(** ** [calibrate]: NaN is not recovered from *)

Section Poison.

Lemma fold_add_NaN (l : list number) : fold_left add l NaN = NaN.
Proof. induction l as [ | a l IH]; simpl; auto. Qed.

(** A NaN among the summands makes the sum NaN. *)
Lemma fold_add_In_NaN (l : list number) :
  forall acc, In NaN l -> fold_left add l acc = NaN.
Proof.
  induction l as [ | a l IH]; intros acc H; [destruct H | ].
  destruct H as [-> | H]; simpl.
  - replace (add acc NaN) with NaN by now destruct acc.
    apply fold_add_NaN.
  - now apply IH.
Qed.

Lemma mean_In_NaN (l : list number) : In NaN l -> mean l = NaN.
Proof. intros H. unfold mean. now rewrite fold_add_In_NaN. Qed.

Lemma mul_NaN_l (a : number) : mul NaN a = NaN.
Proof. reflexivity. Qed.

Lemma mul_NaN_r (a : number) : mul a NaN = NaN.
Proof. now destruct a. Qed.

Lemma add_NaN_r (a : number) : add a NaN = NaN.
Proof. now destruct a. Qed.

Lemma sub_NaN_r (a : number) : sub a NaN = NaN.
Proof. now destruct a. Qed.

Lemma div_NaN_r (a : number) : div a NaN = NaN.
Proof. now destruct a. Qed.

(** A NaN average on either axis makes the diagonal NaN. *)
Lemma diagonal_NaN (c : Corners) :
  degreePerUnitX (averageScale c) = NaN \/ degreePerUnitY (averageScale c) = NaN ->
  diagonal c = NaN.
Proof.
  unfold diagonal, Math_pow2. intros [H | H]; rewrite H, mul_NaN_r; simpl.
  - reflexivity.
  - now rewrite add_NaN_r.
Qed.

End Poison.

Section PoisonedResult.

Variable calibrationSet : list CalibratedPoint.
Variable imageDimensions : Dimensions.
Variable c : Corners.
Hypothesis Hc : calibrateCorners calibrationSet imageDimensions = Some c.

Lemma originCoordinate_eq :
  exists p0,
    nth_error calibrationSet 0 = Some p0
    /\ latitude (originCoordinate c) =
         sub (latitude (gps p0))
             (mul (degreePerUnitY (averageScale c)) (y (cartesian p0)))
    /\ longitude (originCoordinate c) =
         sub (longitude (gps p0))
             (mul (degreePerUnitX (averageScale c)) (x (cartesian p0))).
Proof.
  destruct (calibrateCorners_spec _ _ c Hc) as (_ & _ & _ & _ & _ & _ & Ho & _).
  destruct (nth_error calibrationSet 0) as [p0 | ] eqn:E0.
  - exists p0. split; [reflexivity | ]. now apply Ho.
  - unfold calibrateCorners in Hc.
    rewrite pairScales_spec in Hc. cbn [bind] in Hc.
    rewrite scaleSums_spec in Hc. cbn [bind] in Hc.
    rewrite E0 in Hc. discriminate.
Qed.

Lemma poisoned_X :
  In NaN (map degreePerUnitX (scales c)) ->
  degreePerUnitX (averageScale c) = NaN
  /\ longitude (originCoordinate c) = NaN
  /\ longitude (oppositeCoordinate c) = NaN.
Proof.
  intros H.
  destruct (calibrateCorners_spec _ _ c Hc)
    as (_ & _ & _ & _ & Hx & _ & _ & _ & Hopp).
  destruct originCoordinate_eq as (p0 & _ & _ & Ho).
  assert (A : degreePerUnitX (averageScale c) = NaN)
    by (rewrite Hx; now apply mean_In_NaN).
  assert (O : longitude (originCoordinate c) = NaN)
    by (rewrite Ho, A, mul_NaN_l; apply sub_NaN_r).
  split; [exact A | ]. split; [exact O | ]. rewrite Hopp, O. reflexivity.
Qed.

Lemma poisoned_Y :
  In NaN (map degreePerUnitY (scales c)) ->
  degreePerUnitY (averageScale c) = NaN
  /\ latitude (originCoordinate c) = NaN
  /\ latitude (oppositeCoordinate c) = NaN.
Proof.
  intros H.
  destruct (calibrateCorners_spec _ _ c Hc)
    as (_ & _ & _ & _ & _ & Hy & _ & Hopp & _).
  destruct originCoordinate_eq as (p0 & _ & Ho & _).
  assert (A : degreePerUnitY (averageScale c) = NaN)
    by (rewrite Hy; now apply mean_In_NaN).
  assert (O : latitude (originCoordinate c) = NaN)
    by (rewrite Ho, A, mul_NaN_l; apply sub_NaN_r).
  split; [exact A | ]. split; [exact O | ]. rewrite Hopp, O. reflexivity.
Qed.

(** The scale of a pair of the set is among the scales. *)
Lemma pair_scale_In (i j : nat) (p q : CalibratedPoint) :
  i < j -> nth_error calibrationSet i = Some p -> nth_error calibrationSet j = Some q ->
  In (calculateScale p q) (scales c).
Proof.
  intros Hij Hp Hq.
  rewrite (calibrateCorners_scales _ _ c Hc).
  eapply nth_error_In. apply (pairScaleSeq_nth calibrationSet i j p q Hij Hp Hq).
Qed.

End PoisonedResult.

Lemma maxErrorPercentage_NaN (c : Corners) (m : MaxDifference) :
  diagonal c = NaN ->
  maxErrorPercentage c m = {| MaxError.x := NaN; MaxError.y := NaN |}.
Proof.
  intros H. unfold maxErrorPercentage. rewrite H, !div_NaN_r. reflexivity.
Qed.

(** X7.  Two calibration points with the same pixel coordinate and the same
    GPS coordinate on an axis (a point entered twice, say) are not
    detected: the returned origin and opposite are NaN on that axis, and
    both error percentages are NaN. *)
Theorem calibrate_duplicate_point_gives_NaN
    (calibrationSet : list CalibratedPoint) (imageDimensions : Dimensions)
    (r : CalibrationResult) (i j : nat) (p q : CalibratedPoint) :
  calibrate calibrationSet imageDimensions = Some r ->
  i < j ->
  nth_error calibrationSet i = Some p ->
  nth_error calibrationSet j = Some q ->
  (eqb (x (cartesian p)) (x (cartesian q)) = true
   /\ eqb (longitude (gps p)) (longitude (gps q)) = true ->
   longitude (origin r) = NaN /\ longitude (opposite r) = NaN
   /\ MaxError.x (maxError r) = NaN /\ MaxError.y (maxError r) = NaN)
  /\ (eqb (y (cartesian p)) (y (cartesian q)) = true
      /\ eqb (latitude (gps p)) (latitude (gps q)) = true ->
      latitude (origin r) = NaN /\ latitude (opposite r) = NaN
      /\ MaxError.x (maxError r) = NaN /\ MaxError.y (maxError r) = NaN).
Proof.
  intros Hr Hij Hp Hq.
  destruct (calibrate_result _ _ r Hr) as (c & m & Hc & Hm & ->).
  pose proof (pair_scale_In _ _ c Hc i j p q Hij Hp Hq) as Hin.
  cbn [maxError origin opposite]. split.
  - intros [Ex El].
    assert (N : degreePerUnitX (calculateScale p q) = NaN).
    { cbn [calculateScale degreePerUnitX].
      apply div_zero_or_nan_by_zero; now apply sub_eqb_zero_or_nan. }
    assert (I : In NaN (map degreePerUnitX (scales c)))
      by (rewrite <- N; now apply in_map).
    destruct (poisoned_X _ _ c Hc I) as (A & O & P).
    rewrite (maxErrorPercentage_NaN c m) by (apply diagonal_NaN; now left).
    repeat apply conj; auto.
  - intros [Ey El].
    assert (N : degreePerUnitY (calculateScale p q) = NaN).
    { cbn [calculateScale degreePerUnitY].
      apply div_zero_or_nan_by_zero; now apply sub_eqb_zero_or_nan. }
    assert (I : In NaN (map degreePerUnitY (scales c)))
      by (rewrite <- N; now apply in_map).
    destruct (poisoned_Y _ _ c Hc I) as (A & O & P).
    rewrite (maxErrorPercentage_NaN c m) by (apply diagonal_NaN; now right).
    repeat apply conj; auto.
Qed.

Lemma calibrate_duplicate_point_gives_NaN_witness :
  exists r,
    calibrate threeWithDuplicate square500 = Some r
    /\ longitude (origin r) = NaN /\ longitude (opposite r) = NaN
    /\ latitude (origin r) = NaN /\ latitude (opposite r) = NaN
    /\ MaxError.x (maxError r) = NaN /\ MaxError.y (maxError r) = NaN.
Proof.
  destruct (calibrate threeWithDuplicate square500) as [r | ] eqn:E;
    [ | vm_compute in E; discriminate].
  exists r. split; [reflexivity | ].
  destruct (calibrate_duplicate_point_gives_NaN threeWithDuplicate square500 r 0 1
              (point "0" "0" "40.0" "-74.0") (point "0" "0" "40.0" "-74.0")
              E ltac:(lia) eq_refl eq_refl) as [HX HY].
  destruct HX as (A & B & C & D); [split; vm_compute; reflexivity | ].
  destruct HY as (A' & B' & _ & _); [split; vm_compute; reflexivity | ].
  repeat apply conj; assumption.
Defined.

(** ** [calibrate]: the anchor point *)

Section Anchor.

Lemma mul_zero_r (a : number) (s : bool) :
  (isFiniteNumber a = true -> isZero (mul a (S754_zero s)) = true)
  /\ (isFiniteNumber a = false -> mul a (S754_zero s) = NaN).
Proof. destruct a; simpl; split; auto; discriminate. Qed.

Lemma sub_zero_r (a z : number) :
  isZero z = true -> sameUpToZeroSign (sub a z) a.
Proof.
  destruct z as [s | | | ]; try discriminate. intros _.
  destruct a as [s' | s' | | s' m e]; simpl.
  - right. destruct s', s; auto.
  - now left.
  - now left.
  - now left.
Qed.

End Anchor.

(** X8.  When the first point of the set sits at pixel (0, 0), the returned
    origin is that point's GPS position (up to the sign of a zero) on
    each axis whose averaged scale is finite, and NaN on an axis whose
    averaged scale is an infinity or NaN. *)
Theorem calibrate_anchor_at_zero
    (calibrationSet : list CalibratedPoint) (imageDimensions : Dimensions)
    (r : CalibrationResult) (p0 : CalibratedPoint) :
  calibrate calibrationSet imageDimensions = Some r ->
  nth_error calibrationSet 0 = Some p0 ->
  isZero (x (cartesian p0)) = true ->
  isZero (y (cartesian p0)) = true ->
  exists c,
    calibrateCorners calibrationSet imageDimensions = Some c
    /\ (isFiniteNumber (degreePerUnitY (averageScale c)) = true ->
        sameUpToZeroSign (latitude (origin r)) (latitude (gps p0)))
    /\ (isFiniteNumber (degreePerUnitX (averageScale c)) = true ->
        sameUpToZeroSign (longitude (origin r)) (longitude (gps p0)))
    /\ (isFiniteNumber (degreePerUnitY (averageScale c)) = false ->
        latitude (origin r) = NaN)
    /\ (isFiniteNumber (degreePerUnitX (averageScale c)) = false ->
        longitude (origin r) = NaN).
Proof.
  intros Hr H0 Zx Zy.
  destruct (calibrate_result _ _ r Hr) as (c & m & Hc & _ & ->).
  exists c. split; [exact Hc | ]. cbn [origin].
  destruct (originCoordinate_eq _ _ c Hc) as (p0' & H0' & Hlat & Hlon).
  rewrite H0 in H0'. injection H0' as <-.
  rewrite Hlat, Hlon.
  destruct (x (cartesian p0)) as [sx | | | ]; try discriminate.
  destruct (y (cartesian p0)) as [sy | | | ]; try discriminate.
  repeat apply conj; intros F.
  - apply sub_zero_r. now apply mul_zero_r.
  - apply sub_zero_r. now apply mul_zero_r.
  - rewrite (proj2 (mul_zero_r _ sy) F). apply sub_NaN_r.
  - rewrite (proj2 (mul_zero_r _ sx) F). apply sub_NaN_r.
Qed.

Lemma calibrate_anchor_at_zero_witness :
  exists r,
    calibrate threeSevenDecimals square500 = Some r
    /\ latitude (origin r) = lit "40.1234567"
    /\ longitude (origin r) = lit "-74.0".
Proof.
  destruct (calibrate threeSevenDecimals square500) as [r | ] eqn:E;
    [ | vm_compute in E; discriminate].
  exists r. split; [reflexivity | ].
  destruct (calibrate_anchor_at_zero threeSevenDecimals square500 r
              (point "0" "0" "40.1234567" "-74.0") E eq_refl eq_refl eq_refl)
    as (c & Hc & Hlat & Hlon & _).
  vm_compute in Hc. injection Hc as <-.
  destruct (Hlat eq_refl) as [-> | [_ Z]]; [ | vm_compute in Z; discriminate].
  destruct (Hlon eq_refl) as [-> | [_ Z]]; [ | vm_compute in Z; discriminate].
  split; reflexivity.
Defined.

(** X9.  The image dimensions play no part in the origin, nor in whether a
    result is returned: they scale the opposite corner and the error
    estimate only. *)
Theorem calibrate_origin_ignores_dimensions
    (calibrationSet : list CalibratedPoint) (d1 d2 : Dimensions)
    (r1 : CalibrationResult) :
  calibrate calibrationSet d1 = Some r1 ->
  exists r2, calibrate calibrationSet d2 = Some r2 /\ origin r2 = origin r1.
Proof.
  intros H1.
  assert (H3 : 3 <= length calibrationSet)
    by (apply (calibrate_Some_iff calibrationSet d1); eauto).
  destruct (proj2 (calibrate_Some_iff calibrationSet d2) H3) as [r2 H2].
  exists r2. split; [exact H2 | ].
  destruct (calibrate_result _ _ r1 H1) as (c1 & m1 & Hc1 & _ & ->).
  destruct (calibrate_result _ _ r2 H2) as (c2 & m2 & Hc2 & _ & ->).
  cbn [origin].
  unfold calibrateCorners in Hc1, Hc2.
  rewrite pairScales_spec in Hc1, Hc2. cbn [bind] in Hc1, Hc2.
  rewrite scaleSums_spec in Hc1, Hc2. cbn [bind fst snd] in Hc1, Hc2.
  destruct (nth_error calibrationSet 0) as [p0 | ]; [ | discriminate].
  cbn [bind] in Hc1, Hc2.
  injection Hc1 as <-. injection Hc2 as <-. reflexivity.
Qed.

Lemma calibrate_origin_ignores_dimensions_witness :
  exists r1 r2,
    calibrate threeExact square500 = Some r1
    /\ calibrate threeExact {| width := ofZ 1920; height := ofZ 1080 |} = Some r2
    /\ origin r2 = origin r1.
Proof.
  destruct (calibrate threeExact square500) as [r1 | ] eqn:E;
    [ | vm_compute in E; discriminate].
  destruct (calibrate_origin_ignores_dimensions threeExact square500
              {| width := ofZ 1920; height := ofZ 1080 |} r1 E) as (r2 & H2 & Ho).
  exists r1, r2. split; [reflexivity | ]. split; [exact H2 | exact Ho].
Defined.

(** ** [calculateScale]: the order of the two points *)

Section Swap.

(** Rounding is symmetric in the sign. *)
Lemma binary_round_aux_opp (s : bool) (m e : Z) (l : location) :
  binary_round_aux prec emax (negb s) m e l
  = SFopp (binary_round_aux prec emax s m e l).
Proof.
  unfold binary_round_aux.
  destruct (shr_fexp prec emax m e l) as [mrs' e'].
  destruct (shr_fexp prec emax _ e' loc_Exact) as [mrs'' e''].
  destruct (shr_m mrs''); auto.
  destruct (_ <=? _)%Z; reflexivity.
Qed.

Lemma binary_round_opp (s : bool) (m : positive) (e : Z) :
  binary_round prec emax (negb s) m e = SFopp (binary_round prec emax s m e).
Proof.
  unfold binary_round. destruct (shl_align m e _). apply binary_round_aux_opp.
Qed.

Lemma binary_normalize_opp (z e : Z) :
  z <> 0%Z ->
  binary_normalize prec emax (- z) e false
  = SFopp (binary_normalize prec emax z e false).
Proof.
  destruct z as [ | p | p]; simpl; intros H; [congruence | | ].
  - apply (binary_round_opp false).
  - apply (binary_round_opp true).
Qed.

(** Swapping the operands of a difference negates it, unless it is zero. *)
Lemma sub_swap (a b : number) :
  sub b a = neg (sub a b) \/ (isZero (sub a b) = true /\ isZero (sub b a) = true).
Proof.
  unfold sub, neg.
  destruct a as [sa | sa | | sa ma ea], b as [sb | sb | | sb mb eb];
    try (left; reflexivity);
    try (destruct sa, sb; simpl; auto; fail).
  cbn [SFsub]. rewrite (Z.min_comm eb ea).
  set (A := cond_Zopp sa (Z.pos (fst (shl_align ma ea (Z.min ea eb))))).
  set (B := cond_Zopp sb (Z.pos (fst (shl_align mb eb (Z.min ea eb))))).
  destruct (Z.eq_dec (A - B) 0) as [E | E].
  - right. replace (B - A)%Z with 0%Z by lia. rewrite E. auto.
  - left. replace (B - A)%Z with (- (A - B))%Z by lia.
    now apply binary_normalize_opp.
Qed.

(** A quotient does not change when both operands are negated. *)
Lemma div_neg_neg (a b : number) : div (neg a) (neg b) = div a b.
Proof.
  unfold div, neg.
  destruct a as [sa | sa | | sa ma ea], b as [sb | sb | | sb mb eb]; simpl; auto;
    try (now rewrite xorb_negb_negb).
Qed.

Lemma isZero_neg (a : number) : isZero (neg a) = isZero a.
Proof. now destruct a. Qed.

(** The quotient of a zero is a zero or NaN, whatever the sign of the
    divisor. *)
Lemma div_zero_neg (u v d : number) :
  isZero u = true -> isZero v = true ->
  sameUpToZeroSign (div v (neg d)) (div u d).
Proof.
  destruct u as [su | | | ], v as [sv | | | ]; try discriminate. intros _ _.
  destruct d as [sd | sd | | sd md ed]; simpl; [now left | | now left | ];
    right; auto.
Qed.

(** The quotient of two differences, with the operands of both swapped. *)
Lemma quotient_swap (a b c d : number) :
  isZero (sub c d) = false ->
  sameUpToZeroSign (div (sub b a) (sub d c)) (div (sub a b) (sub c d)).
Proof.
  intros H.
  destruct (sub_swap c d) as [-> | [Z _]]; [ | congruence].
  destruct (sub_swap a b) as [-> | [Z1 Z2]].
  - left. apply div_neg_neg.
  - now apply div_zero_neg.
Qed.

End Swap.

(** X10.  The scale of a pair does not depend on the order of its two points,
    on each axis on which their pixel coordinates differ: swapping the
    points gives the same scale, up to the sign of a zero. *)
Theorem calculateScale_swap (p1 p2 : CalibratedPoint) :
  (isZero (sub (x (cartesian p1)) (x (cartesian p2))) = false ->
   sameUpToZeroSign (degreePerUnitX (calculateScale p2 p1))
                    (degreePerUnitX (calculateScale p1 p2)))
  /\ (isZero (sub (y (cartesian p1)) (y (cartesian p2))) = false ->
      sameUpToZeroSign (degreePerUnitY (calculateScale p2 p1))
                       (degreePerUnitY (calculateScale p1 p2))).
Proof.
  split; intros H; cbn [calculateScale degreePerUnitX degreePerUnitY];
    now apply quotient_swap.
Qed.

Lemma calculateScale_swap_witness :
  let p1 := point "0" "0" "40.0" "-74.0" in
  let p2 := point "500" "500" "40.01" "-73.99" in
  calculateScale p2 p1 = calculateScale p1 p2.
Proof.
  intros p1 p2.
  destruct (calculateScale_swap p1 p2) as [HX HY].
  destruct HX as [EX | [Z _]]; [vm_compute; reflexivity | | vm_compute in Z; discriminate].
  destruct HY as [EY | [Z _]]; [vm_compute; reflexivity | | vm_compute in Z; discriminate].
  destruct (calculateScale p2 p1), (calculateScale p1 p2).
  simpl in EX, EY. now subst.
Defined.

(** X11.  The scale of a point against itself is NaN on both axes, whatever
    the point. *)
Theorem calculateScale_same_point (p : CalibratedPoint) :
  calculateScale p p = {| degreePerUnitX := NaN; degreePerUnitY := NaN |}.
Proof.
  assert (H : forall a, sub a a = S754_zero false \/ sub a a = S754_zero true
                        \/ sub a a = NaN).
  { intros [s | s | | s m e]; unfold sub; simpl.
    - destruct s; auto.
    - destruct s; auto.
    - auto.
    - rewrite Z.sub_diag. auto. }
  unfold calculateScale.
  now rewrite !div_zero_or_nan_by_zero by apply H.
Qed.

(** ** [calculateScaleFromEndpoints] *)

Section Endpoints.

Lemma sub_pzero (w : number) : isZero w = false -> sub pzero w = neg w.
Proof. destruct w; simpl; auto; discriminate. Qed.

(** The backward quotient over [0 - w] is the forward quotient over [w]. *)
Lemma endpoint_quotient (a b w : number) :
  isZero w = false ->
  sameUpToZeroSign (div (sub a b) (sub pzero w)) (div (sub b a) w).
Proof.
  intros H. rewrite (sub_pzero w H).
  destruct (sub_swap b a) as [-> | [Z1 Z2]].
  - left. apply div_neg_neg.
  - now apply div_zero_neg.
Qed.

End Endpoints.

(** X12.  [calculateScaleFromEndpoints] returns, on each axis whose normalized
    size is not zero, the difference from origin to opposite over the
    normalized size, up to the sign of a zero: the scale is positive when
    the coordinate grows from the origin to the opposite corner. *)
Theorem calculateScaleFromEndpoints_forward
    (origin opposite : GPSPoint) (imageDimensions : Dimensions) :
  (isZero (width (normalizeImageDimensions imageDimensions)) = false ->
   sameUpToZeroSign
     (degreePerUnitX (calculateScaleFromEndpoints origin opposite imageDimensions))
     (div (sub (longitude opposite) (longitude origin))
          (width (normalizeImageDimensions imageDimensions))))
  /\ (isZero (height (normalizeImageDimensions imageDimensions)) = false ->
      sameUpToZeroSign
        (degreePerUnitY (calculateScaleFromEndpoints origin opposite imageDimensions))
        (div (sub (latitude opposite) (latitude origin))
             (height (normalizeImageDimensions imageDimensions)))).
Proof.
  split; intros H; unfold calculateScaleFromEndpoints;
    cbn [calculateScale degreePerUnitX degreePerUnitY cartesian gps x y];
    now apply endpoint_quotient.
Qed.

Lemma calculateScaleFromEndpoints_forward_witness :
  let o := {| longitude := ofZ (-74); latitude := ofZ 40 |} in
  let p := {| longitude := ofZ (-73); latitude := ofZ 41 |} in
  calculateScaleFromEndpoints o p square500
  = {| degreePerUnitX := div (ofZ 1) (ofZ 500); degreePerUnitY := div (ofZ 1) (ofZ 500) |}.
Proof.
  intros o p.
  destruct (calculateScaleFromEndpoints_forward o p square500) as [HX HY].
  destruct HX as [EX | [Z _]]; [vm_compute; reflexivity | | vm_compute in Z; discriminate].
  destruct HY as [EY | [Z _]]; [vm_compute; reflexivity | | vm_compute in Z; discriminate].
  destruct (calculateScaleFromEndpoints o p square500) as [sx sy].
  cbn [degreePerUnitX degreePerUnitY] in EX, EY. rewrite EX, EY.
  vm_compute. reflexivity.
Defined.

(** X13.  [calculateScaleFromEndpoints] is the one pair scale that the first
    loop of [calibrate] computes on its two points; it returns that
    scale, where [calibrate] on the same two points throws. *)
Theorem calculateScaleFromEndpoints_pair_scale
    (origin opposite : GPSPoint) (imageDimensions : Dimensions) :
  pairScales (endpointSet origin opposite imageDimensions)
  = Some [calculateScaleFromEndpoints origin opposite imageDimensions]
  /\ calibrate (endpointSet origin opposite imageDimensions) imageDimensions = None.
Proof. split; reflexivity. Qed.

(** ** [normalizeImageDimensions]: the 500 by 500 box *)

Lemma sizes_checked : forallb (fun wh => fitsBox (fst wh) (snd wh)) (sizesUpTo 128) = true.
Proof. vm_compute. reflexivity. Qed.

(** X14.  Every image of integer size between 1 by 1 and 128 by 128 is
    normalized into the box: both sides are above 0 and at most 500, and
    one of them is exactly 500. *)
Theorem normalizeImageDimensions_fits_box (w h : nat) :
  1 <= w <= 128 -> 1 <= h <= 128 ->
  let d := normalizeImageDimensions {| width := ofNat w; height := ofNat h |} in
  le (width d) (ofZ 500) = true /\ le (height d) (ofZ 500) = true
  /\ gt (width d) pzero = true /\ gt (height d) pzero = true
  /\ (width d = ofZ 500 \/ height d = ofZ 500).
Proof.
  intros Hw Hh d.
  assert (I : In (w, h) (sizesUpTo 128))
    by (apply in_prod; apply in_seq; lia).
  pose proof (proj1 (forallb_forall _ _) sizes_checked (w, h) I) as H.
  unfold fitsBox in H. cbn [fst snd] in H. fold d in H.
  repeat (apply andb_true_iff in H as [H ?]).
  repeat apply conj; auto.
  match goal with E : (_ || _) = true |- _ =>
    apply orb_true_iff in E as [E | E]; apply sameNumber_eq in E; auto end.
Qed.

Lemma normalizeImageDimensions_fits_box_witness :
  let d := normalizeImageDimensions {| width := ofNat 16; height := ofNat 9 |} in
  le (height d) (ofZ 500) = true /\ width d = ofZ 500.
Proof.
  intros d.
  destruct (normalizeImageDimensions_fits_box 16 9 ltac:(lia) ltac:(lia))
    as (_ & Hh & _ & _ & _).
  split; [exact Hh | vm_compute; reflexivity].
Defined.

(** ** [isValidGPSInput]: a missing field *)

Lemma trimStart_allWhiteSpace (w : String.string) :
  allWhiteSpace w = true -> JSString.trimStart w = "".
Proof.
  induction w as [ | c w IH]; simpl; auto.
  intros [Hc Hw]%andb_true_iff. rewrite Hc. now apply IH.
Qed.

Lemma parseFloat_allWhiteSpace (w : String.string) :
  allWhiteSpace w = true -> JSString.parseFloat w = NaN.
Proof.
  intros H. unfold JSString.parseFloat. now rewrite trimStart_allWhiteSpace.
Qed.

(** X5.  An input whose first or second field is empty or blank, such as
    [40.0,] or [, -74.0], is rejected. *)
Theorem isValidGPSInput_missing_field (input : String.string) :
  allWhiteSpace (firstField input) = true
  \/ allWhiteSpace (secondField input) = true ->
  isValidGPSInput input = false.
Proof.
  intros H.
  destruct (contains JSString.comma input) eqn:E;
    [ | now apply isValidGPSInput_no_comma].
  rewrite (isValidGPSInput_fields input E).
  destruct H as [H | H]; rewrite (parseFloat_allWhiteSpace _ H), inRange_NaN;
    auto using andb_false_r.
Qed.

Lemma isValidGPSInput_missing_field_witness :
  isValidGPSInput "40.0," = false /\ isValidGPSInput " ,-74.0" = false.
Proof.
  split.
  - apply (isValidGPSInput_missing_field "40.0,"). right. reflexivity.
  - apply (isValidGPSInput_missing_field " ,-74.0"). left. reflexivity.
Defined.
